(** * Mandelbrot renderer ([render.cu]): shallow embedding and properties

    The device code works on IEEE-754 binary32 values ([float]) and on
    32-bit [int]s; the host code drives the CUDA runtime.  Floats are
    modelled bit-exactly with the parametric specification of the
    Standard Library ([SpecFloat], precision 24, [emax] 128, round to
    nearest even); every source-level operation is one rounded operation,
    as written in the source (no fused multiply-add contraction).  What
    C++ leaves undefined (a conversion from [float] to an integer type
    that does not fit) and the device assertion are explicit results;
    the answers of the CUDA runtime are a parameter of [render]. *)

From Stdlib Require Import ZArith List Bool Lia String.
From Stdlib Require Import Floats.SpecFloat.
Import ListNotations.
Open Scope Z_scope.

(** ** binary32 arithmetic *)

Module F32.

Definition prec : Z := 24.
Definition emax : Z := 128.

Definition float := spec_float.

Definition add : float -> float -> float := SFadd prec emax.
Definition sub : float -> float -> float := SFsub prec emax.
Definition mul : float -> float -> float := SFmul prec emax.
Definition div : float -> float -> float := SFdiv prec emax.
Definition ltb : float -> float -> bool := SFltb.
Definition leb : float -> float -> bool := SFleb.

(** Conversion [int -> float] (round to nearest even). *)
Definition of_int (z : Z) : float := binary_normalize prec emax z 0 false.

(** A dyadic literal [m * 2^e]; used for constants such as [-2.5]. *)
Definition dyadic (m e : Z) : float := binary_normalize prec emax m e false.

(** Integer part of the magnitude [m * 2^e], rounded toward zero. *)
Definition trunc_mag (m : positive) (e : Z) : Z :=
  match e with
  | Zneg p => Z.shiftr (Zpos m) (Zpos p)
  | _ => Z.shiftl (Zpos m) e
  end.

(** Conversion float -> integer by truncation; [None] for NaN and
    infinities.  The caller checks the range of the destination type. *)
Definition truncate (f : float) : option Z :=
  match f with
  | S754_zero _ => Some 0
  | S754_finite s m e => Some (cond_Zopp s (trunc_mag m e))
  | _ => None
  end.

(** [std::ceil] on floats: the result is integral, hence exactly
    representable; a negative value in (-1, 0) gives [-0]. *)
Definition ceil (f : float) : float :=
  match f with
  | S754_finite s m e =>
      match e with
      | Zneg p =>
          let q := Z.shiftr (Zpos m) (Zpos p) in
          let exact := Z.eqb (Z.shiftl q (Zpos p)) (Zpos m) in
          if s then binary_normalize prec emax (- q) 0 true
          else binary_normalize prec emax (if exact then q else q + 1) 0 false
      | _ => f
      end
  | _ => f
  end.

Definition is_nan (f : float) : bool :=
  match f with S754_nan => true | _ => false end.

(** Zero or a finite non-zero number (neither infinite nor NaN). *)
Definition is_finite (f : float) : bool :=
  match f with S754_zero _ | S754_finite _ _ _ => true | _ => false end.

Definition is_finite_nonzero (f : float) : bool :=
  match f with S754_finite _ _ _ => true | _ => false end.

End F32.

Abbreviation float := F32.float.

(** ** Integer types *)

Definition INT_MIN : Z := - 2147483648.
Definition INT_MAX : Z := 2147483647.

(** [static_cast<std::uint8_t>(f)]: truncation; undefined (here [None])
    when the truncated value does not fit. *)
Definition to_uint8 (f : float) : option Z :=
  match F32.truncate f with
  | Some z => if (0 <=? z) && (z <=? 255) then Some z else None
  | None => None
  end.

(** Conversion [float -> int], same rule for the range of [int]. *)
Definition to_int (f : float) : option Z :=
  match F32.truncate f with
  | Some z => if (INT_MIN <=? z) && (z <=? INT_MAX) then Some z else None
  | None => None
  end.

(** ** Pixel colours *)

Record rgba8_t : Type := mk_rgba8 { r : Z; g : Z; b : Z; a : Z }.

(** [sizeof(rgba8_t)], also the size of [uchar4]. *)
Definition sizeof_rgba8_t : Z := 4.

(** ** [heat_lut] *)

Definition f0 : float := F32.of_int 0.
Definition f1 : float := F32.of_int 1.
Definition f4 : float := F32.of_int 4.
Definition f255 : float := F32.of_int 255.

Definition x0 : float := F32.div f1 f4.
Definition x1 : float := F32.div (F32.of_int 2) f4.
Definition x2 : float := F32.div (F32.of_int 3) f4.

(** The argument of [assert] in [heat_lut]. *)
Definition heat_lut_pre (x : float) : bool :=
  F32.leb f0 x && F32.leb x f1.

(** The four bands, after the assertion. *)
Definition heat_lut_body (x : float) : option rgba8_t :=
  if F32.ltb x x0 then
    match to_uint8 (F32.mul (F32.div x x0) f255) with
    | Some g => Some (mk_rgba8 0 g 255 255)
    | None => None
    end
  else if F32.ltb x x1 then
    match to_uint8 (F32.mul (F32.div (F32.sub x1 x) x0) f255) with
    | Some b => Some (mk_rgba8 0 255 b 255)
    | None => None
    end
  else if F32.ltb x x2 then
    match to_uint8 (F32.mul (F32.div (F32.sub x x1) x0) f255) with
    | Some r => Some (mk_rgba8 r 255 0 255)
    | None => None
    end
  else
    match to_uint8 (F32.mul (F32.div (F32.sub f1 x) x0) f255) with
    | Some b => Some (mk_rgba8 0 b 0 255)
    | None => None
    end.

(** [heat_lut]: [None] when the assertion fails (the device traps) or a
    channel cast is undefined. *)
Definition heat_lut (x : float) : option rgba8_t :=
  if heat_lut_pre x then heat_lut_body x else None.

(** ** [clamp] *)

Definition clamp (a a1 a2 min max : float) : float :=
  let percentage := F32.div (F32.sub a a1) (F32.sub a1 a2) in
  F32.add (F32.mul percentage (F32.sub min max)) min.

(** ** The kernel [mykernel] *)

(** [unsigned int -> int] and [int] wrap-around (two's complement). *)
Definition wrap_int (z : Z) : Z := (z + 2147483648) mod 4294967296 - 2147483648.

Record dim3 : Type := mk_dim3 { dim_x : Z; dim_y : Z }.

(** One thread of the launch: its block and its place in the block. *)
Record thread_id : Type := mk_thread { blockIdx : dim3; threadIdx : dim3 }.

(** Local state of the [while] loop. *)
Record loop_state : Type := mk_loop { mx : float; my : float; i : Z }.

Definition f2 : float := F32.of_int 2.

(** The loop condition [mx * mx + my * my < 2 * 2 && i < n]. *)
Definition loop_cond (n : Z) (s : loop_state) : bool :=
  F32.ltb (F32.add (F32.mul (mx s) (mx s)) (F32.mul (my s) (my s)))
          (F32.of_int (2 * 2))
  && (i s <? n).

(** The loop body. *)
Definition loop_body (mx0 my0 : float) (s : loop_state) : loop_state :=
  let mxtemp := F32.add (F32.sub (F32.mul (mx s) (mx s)) (F32.mul (my s) (my s))) mx0 in
  let my' := F32.add (F32.mul (F32.mul f2 (mx s)) (my s)) my0 in
  mk_loop mxtemp my' (i s + 1).

(** [while (cond) body], unrolled at most [fuel] times. *)
Fixpoint while_loop (fuel : nat) (n : Z) (mx0 my0 : float) (s : loop_state)
  : loop_state :=
  match fuel with
  | O => s
  | S k => if loop_cond n s then while_loop k n mx0 my0 (loop_body mx0 my0 s)
           else s
  end.

(** The escape-time evaluation of one mapped point: the state after the
    loop, started at [(0, 0)] with [i = 0].  [n] iterations of fuel are
    enough, since the condition fails once [i] reaches [n]. *)
Definition escape_loop (n : Z) (mx0 my0 : float) : loop_state :=
  while_loop (Z.to_nat n) n mx0 my0 (mk_loop f0 f0 0).

(** Mapping of a pixel to the complex plane (the two [clamp] calls). *)
Definition map_x (x width : Z) : float :=
  clamp (F32.of_int x) (F32.of_int 0) (F32.of_int width)
        (F32.dyadic (-5) (-1)) (F32.of_int 1).
Definition map_y (y height : Z) : float :=
  clamp (F32.of_int y) (F32.of_int 0) (F32.of_int height)
        (F32.of_int (-1)) (F32.of_int 1).

(** [float v = 255 * i / n;  v_clamp = clamp(v, 0.0, 255.0, 0.0, 1.0)]:
    the quotient is an [int] division (truncating). *)
Definition v_clamp (i n : Z) : float :=
  let v := F32.of_int (Z.quot (255 * i) n) in
  clamp v f0 f255 f0 f1.

(** The thread's pixel coordinates. *)
Definition thread_x (blockDim : dim3) (t : thread_id) : Z :=
  wrap_int (dim_x blockDim * dim_x (blockIdx t) + dim_x (threadIdx t)).
Definition thread_y (blockDim : dim3) (t : thread_id) : Z :=
  wrap_int (dim_y blockDim * dim_y (blockIdx t) + dim_y (threadIdx t)).

(** What one thread does to the device buffer.  Offsets are byte
    offsets from [buffer]; [y * pitch] and the index [x] are taken as
    integers (the launches considered keep them non-negative). *)
Inductive thread_result : Type :=
| Skip                               (* early [return] *)
| Store (off : Z) (c : rgba8_t)      (* one [uchar4] at byte offset [off] *)
| Trap.                              (* failed device assertion *)

Definition mykernel (width height pitch : Z) (blockDim : dim3) (t : thread_id)
  : thread_result :=
  let denum := F32.of_int (wrap_int (width * width + height * height)) in
  let x := thread_x blockDim t in
  let y := thread_y blockDim t in
  if (x >=? width) || (y >=? height) then Skip
  else
    let n := 100 in
    let mx0 := map_x x width in
    let my0 := map_y y height in
    let s := escape_loop n mx0 my0 in
    let off := y * pitch + sizeof_rgba8_t * x in
    match heat_lut (v_clamp (i s) n) with
    | Some color => Store off color
    | None => Trap
    end.

(** ** Buffers and the launch *)

(** A buffer, addressed by byte offset from its base pointer. *)
Definition mem : Type := Z -> Z.

Definition store_byte (m : mem) (off v : Z) : mem :=
  fun k => if k =? off then v else m k.

(** [lineptr[x] = {r, g, b, a}]: four consecutive bytes. *)
Definition store_uchar4 (m : mem) (off : Z) (c : rgba8_t) : mem :=
  store_byte (store_byte (store_byte (store_byte m off (r c))
                                     (off + 1) (g c))
                         (off + 2) (b c))
             (off + 3) (a c).

Definition zrange (n : Z) : list Z := map Z.of_nat (seq 0 (Z.to_nat n)).

(** All threads of a launch [<<< grid, block >>>]. *)
Definition grid_threads (grid block : dim3) : list thread_id :=
  flat_map (fun by_ =>
    flat_map (fun bx =>
      flat_map (fun ty =>
        map (fun tx => mk_thread (mk_dim3 bx by_) (mk_dim3 tx ty))
            (zrange (dim_x block)))
        (zrange (dim_y block)))
      (zrange (dim_x grid)))
    (zrange (dim_y grid)).

(** The threads run in some order; each one skips, stores its pixel, or
    traps (which ends the kernel). *)
Fixpoint run_threads (k : thread_id -> thread_result) (ts : list thread_id)
         (m : mem) : option mem :=
  match ts with
  | [] => Some m
  | t :: ts' =>
      match k t with
      | Skip => run_threads k ts' m
      | Store off c => run_threads k ts' (store_uchar4 m off c)
      | Trap => None
      end
  end.

Definition launch (grid block : dim3) (k : thread_id -> thread_result)
           (m : mem) : option mem :=
  run_threads k (grid_threads grid block) m.

(** ** The host side: [render] *)

(** What the CUDA runtime answers during one call of [render]: the
    return codes, the pitch and the (arbitrary) initial contents of the
    allocation, and the code [cudaGetLastError] would report. *)
Record cuda_runtime : Type := mk_runtime {
  malloc_rc : Z;
  malloc_pitch : Z;
  malloc_contents : mem;
  peek_rc : Z;
  memcpy_rc : Z;
  free_rc : Z;
  last_error : Z
}.

Inductive log_entry : Type :=
| LogDebug (w h : Z)                          (* "running kernel of size" *)
| LogAbort (msg fname : string) (line : Z)    (* message, function, line *)
| LogCuda (err : Z).                          (* error name and string *)

Inductive outcome : Type :=
| Returned (log : list log_entry) (hostBuffer : mem)
| Exited (log : list log_entry) (code : Z)    (* [std::exit] *)
| Undefined.                                  (* [float -> int] out of range *)

(** [_abortError] through the macro [abortError], called in [render]. *)
Definition abortError (rt : cuda_runtime) (log : list log_entry)
           (msg : string) (line : Z) : outcome :=
  Exited (log ++ [LogAbort msg "render" line; LogCuda (last_error rt)]) 1.

(** One row of [cudaMemcpy2D]. *)
Definition copy_row (dst : mem) (doff : Z) (src : mem) (soff : Z) (n : Z)
  : mem :=
  fun k => if (doff <=? k) && (k <? doff + n) then src (soff + (k - doff))
           else dst k.

Definition cudaMemcpy2D (dst : mem) (dpitch : Z) (src : mem) (spitch : Z)
           (wbytes height : Z) : mem :=
  fold_left (fun m row => copy_row m (row * dpitch) src (row * spitch) wbytes)
            (zrange height) dst.

(** Block and grid shapes computed by [render]. *)
Definition launch_geometry (width height : Z) : option (dim3 * dim3) :=
  let bsize := 32 in
  match to_int (F32.ceil (F32.div (F32.of_int width) (F32.of_int bsize))),
        to_int (F32.ceil (F32.div (F32.of_int height) (F32.of_int bsize))) with
  | Some w, Some h => Some (mk_dim3 bsize bsize, mk_dim3 w h)
  | _, _ => None
  end.

Definition render (rt : cuda_runtime) (hostBuffer : mem)
           (width height stride n_iterations : Z) : outcome :=
  if negb (malloc_rc rt =? 0) then abortError rt [] "Fail buffer allocation" 99
  else
    let devBuffer := malloc_contents rt in
    let pitch := malloc_pitch rt in
    match launch_geometry width height with
    | None => Undefined
    | Some (dimBlock, dimGrid) =>
        let log := [LogDebug (dim_x dimGrid) (dim_y dimGrid)] in
        let dev := launch dimGrid dimBlock
                          (mykernel width height pitch dimBlock) devBuffer in
        if negb (peek_rc rt =? 0) then abortError rt log "Computation Error" 114
        else
          match dev with
          | None =>
              (* a trapped kernel surfaces at the next synchronising call *)
              abortError rt log "Unable to copy buffer back to memory" 120
          | Some dev' =>
              if negb (memcpy_rc rt =? 0)
              then abortError rt log "Unable to copy buffer back to memory" 120
              else
                let host' := cudaMemcpy2D hostBuffer stride dev' pitch
                                          (width * sizeof_rgba8_t) height in
                if negb (free_rc rt =? 0)
                then abortError rt log "Unable to free memory" 125
                else Returned log host'
          end
    end.

(** The value the kernel hands to [heat_lut] for pixel [(x, y)]. *)
Definition pixel_scalar (width height x y : Z) : float :=
  v_clamp (i (escape_loop 100 (map_x x width) (map_y y height))) 100.


(** ** Auxiliary definitions for the statements *)

Definition loop_init : loop_state := mk_loop f0 f0 0.

(** The state after [k] applications of the body to the initial state. *)
Definition orbit (mx0 my0 : float) (k : nat) : loop_state :=
  Nat.iter k (loop_body mx0 my0) loop_init.

(** [|z|^2] as the loop condition computes it. *)
Definition norm2 (s : loop_state) : float :=
  F32.add (F32.mul (mx s) (mx s)) (F32.mul (my s) (my s)).

(** The possible counts [0 .. 100], for checks by enumeration. *)
Definition counts : list Z := map Z.of_nat (seq 0 101).

Definition float_eqb (x y : float) : bool :=
  match x, y with
  | S754_zero s, S754_zero s' => Bool.eqb s s'
  | S754_infinity s, S754_infinity s' => Bool.eqb s s'
  | S754_nan, S754_nan => true
  | S754_finite s m e, S754_finite s' m' e' =>
      Bool.eqb s s' && Pos.eqb m m' && Z.eqb e e'
  | _, _ => false
  end.

(** The quotient the code forms before the conversion to [float]. *)
Definition level (k : Z) : Z := Z.quot (255 * k) 100.


(** The largest binary32 values below the band joins [x0], [x1], [x2]. *)
Definition below_x0 : float := S754_finite false 16777215 (-26).
Definition below_x1 : float := S754_finite false 16777215 (-25).
Definition below_x2 : float := S754_finite false 12582911 (-24).

Definition is_float32 (x : float) : bool := valid_binary F32.prec F32.emax x.

(** [c] is the limit from below of [f] at [p]: [f] is constantly [c] on
    the binary32 values of some interval [[lo, p)] with [lo < p]. *)
Definition left_limit (f : float -> option rgba8_t) (p : float) (c : rgba8_t)
  : Prop :=
  exists lo : float,
    is_float32 lo = true /\ F32.ltb lo p = true /\
    forall x : float,
      is_float32 x = true -> F32.leb lo x = true -> F32.ltb x p = true ->
      f x = Some c.

(** [-1.0f] *)
Definition minus_one : float := F32.of_int (-1).

(** [ceil(n / d)] on integers. *)
Definition ceil_div (n d : Z) : Z := (n + d - 1) / d.

(** Four consecutive bytes read as a colour. *)
Definition read_uchar4 (m : mem) (off : Z) : rgba8_t :=
  mk_rgba8 (m off) (m (off + 1)) (m (off + 2)) (m (off + 3)).

(** The pixel [(x, y)] read back from a buffer of row pitch [pitch]. *)
Definition read_pixel (m : mem) (pitch x y : Z) : rgba8_t :=
  read_uchar4 m (y * pitch + sizeof_rgba8_t * x).

(** A runtime in which every call succeeds. *)
Definition all_succeed (rt : cuda_runtime) : bool :=
  (malloc_rc rt =? 0) && (peek_rc rt =? 0) && (memcpy_rc rt =? 0)
  && (free_rc rt =? 0).

(** The colour the kernel computes for pixel [(x, y)]. *)
Definition pixel_color (width height x y : Z) : option rgba8_t :=
  heat_lut (pixel_scalar width height x y).

(** ** Further auxiliary definitions *)

Definition rgba8_eqb (c d : rgba8_t) : bool :=
  (r c =? r d) && (g c =? g d) && (b c =? b d) && (a c =? a d).

(** The colour shown for an iteration count. *)
Definition count_color (k : Z) : option rgba8_t := heat_lut (v_clamp k 100).

Definition same_color (o o' : option rgba8_t) : bool :=
  match o, o' with
  | Some c, Some d => rgba8_eqb c d
  | None, None => true
  | _, _ => false
  end.

(** All pairs of counts. *)
Definition count_pairs : list (Z * Z) := list_prod counts counts.
(** * Properties *)

(** ** Comparison of floats *)

Lemma SFcompare_antisym (x y : float) :
  SFcompare y x = option_map CompOpp (SFcompare x y).
Proof.
  destruct x as [sx|sx| |sx mx ex], y as [sy|sy| |sy my ey]; simpl;
    try reflexivity;
    try (destruct sx; reflexivity); try (destruct sy; reflexivity);
    try (destruct sx, sy; reflexivity).
  destruct sx, sy; simpl; try reflexivity;
    rewrite (Z.compare_antisym ex ey);
    destruct (ex ?= ey); simpl; try reflexivity;
    change (PosDef.Pos.compare_cont Eq my mx)
      with (Pos.compare_cont (CompOpp Eq) my mx);
    rewrite <- (Pos.compare_cont_antisym mx my Eq); simpl;
    try rewrite CompOpp_involutive; reflexivity.
Qed.

Lemma SFcompare_number (x y : float) :
  F32.is_nan x = false -> F32.is_nan y = false -> SFcompare x y <> None.
Proof.
  destruct x as [sx|sx| |sx mx ex], y as [sy|sy| |sy my ey]; simpl;
    intros; congruence.
Qed.

(** For numbers, [not (x < y)] is [y <= x]; with a NaN both are false. *)
Lemma not_ltb_leb (x y : float) :
  F32.is_nan x = false -> F32.is_nan y = false ->
  F32.ltb x y = false -> F32.leb y x = true.
Proof.
  intros Hx Hy. pose proof (SFcompare_number x y Hx Hy) as Hc.
  unfold F32.ltb, F32.leb, SFltb, SFleb.
  rewrite (SFcompare_antisym x y).
  destruct (SFcompare x y) as [[ | | ]|]; simpl; congruence.
Qed.

Lemma ltb_not_leb (x y : float) :
  F32.ltb x y = true -> F32.leb y x = false.
Proof.
  unfold F32.ltb, F32.leb, SFltb, SFleb.
  rewrite (SFcompare_antisym x y).
  destruct (SFcompare x y) as [[ | | ]|]; simpl; congruence.
Qed.

(** ** The escape-time loop *)

Lemma iter_shift {A} (f : A -> A) (k : nat) (x : A) :
  Nat.iter k f (f x) = f (Nat.iter k f x).
Proof. induction k as [|k IH]; simpl; [reflexivity | now rewrite IH]. Qed.

Lemma while_loop_spec (n : Z) (mx0 my0 : float) :
  forall (fuel : nat) (s : loop_state),
    n - i s <= Z.of_nat fuel ->
    exists k : nat,
      (k <= fuel)%nat /\
      while_loop fuel n mx0 my0 s = Nat.iter k (loop_body mx0 my0) s /\
      loop_cond n (Nat.iter k (loop_body mx0 my0) s) = false /\
      forall j : nat, (j < k)%nat ->
        loop_cond n (Nat.iter j (loop_body mx0 my0) s) = true.
Proof.
  induction fuel as [|fuel IH]; intros s Hfuel.
  - exists 0%nat. simpl. repeat split; try lia.
    unfold loop_cond. replace (i s <? n) with false.
    + apply andb_false_r.
    + symmetry. apply Z.ltb_ge. simpl in Hfuel. lia.
  - simpl. destruct (loop_cond n s) eqn:Hc.
    + destruct (IH (loop_body mx0 my0 s)) as (k & Hk & Hw & Hex & Hbefore).
      { simpl. lia. }
      exists (S k). rewrite Hw. rewrite !iter_shift in *. simpl.
      repeat split; try lia; try assumption.
      intros [|j] Hj; simpl; [assumption|].
      rewrite <- iter_shift. apply Hbefore. lia.
    + exists 0%nat. simpl. repeat split; try lia; try assumption.
Qed.

Lemma i_iter (mx0 my0 : float) (k : nat) (s : loop_state) :
  i (Nat.iter k (loop_body mx0 my0) s) = i s + Z.of_nat k.
Proof.
  induction k as [|k IH]; [simpl; lia|].
  cbn [Nat.iter nat_rect]. unfold loop_body at 1. cbn [i]. 
  change (nat_rect _ s (fun _ => loop_body mx0 my0) k)
    with (Nat.iter k (loop_body mx0 my0) s).
  rewrite IH. lia.
Qed.

(** C1: started at [(mx, my) = (0, 0)] with [i = 0], the evaluator applies
    [mx' = mx*mx - my*my + mx0; my' = 2*mx*my + my0] exactly [i] times,
    where [i] is the first count at which [mx*mx + my*my < 4] fails or
    [i = 100]; so the loop runs at most 100 iterations, it has really
    exited, and [0 <= i <= 100].  On numbers the failed test is
    [mx*mx + my*my >= 4]. *)
Theorem escape_time_bounded (mx0 my0 : float) :
  let s := escape_loop 100 mx0 my0 in
  (forall t : loop_state,
      mx (loop_body mx0 my0 t)
      = F32.add (F32.sub (F32.mul (mx t) (mx t)) (F32.mul (my t) (my t))) mx0 /\
      my (loop_body mx0 my0 t)
      = F32.add (F32.mul (F32.mul f2 (mx t)) (my t)) my0) /\
  orbit mx0 my0 0 = mk_loop f0 f0 0 /\
  0 <= i s <= 100 /\
  s = orbit mx0 my0 (Z.to_nat (i s)) /\
  loop_cond 100 s = false /\
  (forall j : nat, (j < Z.to_nat (i s))%nat ->
      F32.ltb (norm2 (orbit mx0 my0 j)) f4 = true /\
      F32.leb f4 (norm2 (orbit mx0 my0 j)) = false) /\
  (i s = 100 \/ F32.ltb (norm2 s) f4 = false) /\
  (i s < 100 -> F32.is_nan (norm2 s) = false -> F32.leb f4 (norm2 s) = true).
Proof.
  intros s.
  destruct (while_loop_spec 100 mx0 my0 (Z.to_nat 100) loop_init)
    as (k & Hk & Hw & Hex & Hbefore).
  { simpl. lia. }
  change (s = Nat.iter k (loop_body mx0 my0) loop_init) in Hw.
  assert (Hi : i s = Z.of_nat k).
  { rewrite Hw, i_iter. reflexivity. }
  assert (Hk' : Z.to_nat (i s) = k) by (rewrite Hi; apply Nat2Z.id).
  rewrite <- Hw in Hex.
  split; [intro t; split; reflexivity|].
  split; [reflexivity|].
  split; [lia|].
  split; [rewrite Hk'; exact Hw|].
  split; [exact Hex|].
  split.
  { rewrite Hk'. intros j Hj. specialize (Hbefore j Hj).
    unfold loop_cond in Hbefore. apply andb_true_iff in Hbefore.
    destruct Hbefore as [Hlt _].
    split; [exact Hlt|]. apply ltb_not_leb. exact Hlt. }
  assert (Hexit : i s = 100 \/ F32.ltb (norm2 s) f4 = false).
  { unfold loop_cond in Hex. apply andb_false_iff in Hex.
    destruct Hex as [Hlt | Hlt]; [right; exact Hlt|].
    left. apply Z.ltb_ge in Hlt. lia. }
  split; [exact Hexit|].
  intros Hlt Hnan. destruct Hexit as [|Hge]; [lia|].
  apply not_ltb_leb; [exact Hnan | reflexivity | exact Hge].
Qed.

(** ** Normalisation of the iteration count *)

Lemma counts_complete (k : Z) : 0 <= k <= 100 -> In k counts.
Proof.
  intros Hk. unfold counts. rewrite <- (Z2Nat.id k) by lia.
  apply in_map, in_seq. lia.
Qed.

Lemma for_all_counts (p : Z -> bool) :
  forallb p counts = true -> forall k, 0 <= k <= 100 -> p k = true.
Proof.
  intros Hall k Hk. rewrite forallb_forall in Hall.
  apply Hall, counts_complete, Hk.
Qed.

Lemma float_eqb_eq (x y : float) : float_eqb x y = true <-> x = y.
Proof.
  destruct x as [s|s| |s m e], y as [s'|s'| |s' m' e']; simpl;
    try (split; [discriminate | intros H; inversion H]);
    try (rewrite Bool.eqb_true_iff; split; [congruence | intros H; inversion H; reflexivity]);
    try (split; reflexivity).
  rewrite !andb_true_iff, Bool.eqb_true_iff, Pos.eqb_eq, Z.eqb_eq.
  split; [intros [[-> ->] ->]; reflexivity | intros H; inversion H; auto].
Qed.

Lemma v_clamp_check :
  forallb (fun k =>
             float_eqb (v_clamp k 100) (F32.div (F32.of_int (level k)) f255)
             && Bool.eqb (float_eqb (v_clamp k 100)
                                    (F32.div (F32.of_int k) (F32.of_int 100)))
                         (k mod 20 =? 0)
             && (0 <=? level k) && (level k <=? 255))
          counts = true.
Proof. vm_compute. reflexivity. Qed.

(** C5 (as the code has it): for every count [i] in [0, 100] the scalar
    given to the colour function is [q / 255], one rounded binary32
    division, where [q = (255 * i) quot 100] is the truncated [int]
    quotient in [0, 255]; it is the binary32 quotient [i / 100] exactly
    when [i] is a multiple of 20. *)
Theorem v_clamp_value (k : Z) :
  0 <= k <= 100 ->
  v_clamp k 100 = F32.div (F32.of_int (Z.quot (255 * k) 100)) f255 /\
  0 <= Z.quot (255 * k) 100 <= 255 /\
  (v_clamp k 100 = F32.div (F32.of_int k) (F32.of_int 100) <-> k mod 20 = 0).
Proof.
  intros Hk. pose proof (for_all_counts _ v_clamp_check k Hk) as H.
  cbv beta in H. rewrite !andb_true_iff in H.
  destruct H as [[[Hv Hiff] Hlo] Hhi].
  apply float_eqb_eq in Hv. apply Z.leb_le in Hlo, Hhi.
  apply Bool.eqb_prop in Hiff. unfold level in *.
  repeat split; try assumption.
  - intros Heq. apply float_eqb_eq in Heq. rewrite Heq in Hiff.
    symmetry in Hiff. apply Z.eqb_eq in Hiff. exact Hiff.
  - intros Hm. apply Z.eqb_eq in Hm. rewrite Hm in Hiff.
    apply float_eqb_eq. exact Hiff.
Qed.

Lemma v_clamp_value_witness :
  v_clamp 1 100 = F32.div (F32.of_int (Z.quot (255 * 1) 100)) f255 /\
  0 <= Z.quot (255 * 1) 100 <= 255 /\
  (v_clamp 1 100 = F32.div (F32.of_int 1) (F32.of_int 100) <-> 1 mod 20 = 0).
Proof. apply (v_clamp_value 1). lia. Defined.

(** C5 as stated fails: at [i = 1] the code passes [2 / 255], which is
    below [1 / 100]. *)
Lemma v_clamp_not_hundredth :
  v_clamp 1 100 = F32.div (F32.of_int 2) f255 /\
  F32.ltb (v_clamp 1 100) (F32.div (F32.of_int 1) (F32.of_int 100)) = true /\
  v_clamp 1 100 <> F32.div (F32.of_int 1) (F32.of_int 100).
Proof.
  split; [vm_compute; reflexivity|].
  split; [vm_compute; reflexivity|].
  vm_compute. discriminate.
Qed.

(** ** The colour function on the kernel's values *)

Lemma heat_lut_on_counts :
  forallb (fun k =>
             F32.leb f0 (v_clamp k 100) && F32.leb (v_clamp k 100) f1
             && match heat_lut (v_clamp k 100) with
                | Some _ => true
                | None => false
                end)
          counts = true.
Proof. vm_compute. reflexivity. Qed.

Lemma heat_lut_defined (k : Z) :
  0 <= k <= 100 ->
  heat_lut_pre (v_clamp k 100) = true /\
  F32.leb f0 (v_clamp k 100) = true /\
  F32.leb (v_clamp k 100) f1 = true /\
  exists c, heat_lut (v_clamp k 100) = Some c.
Proof.
  intros Hk. pose proof (for_all_counts _ heat_lut_on_counts k Hk) as H.
  cbv beta in H. rewrite !andb_true_iff in H. destruct H as [[Hlo Hhi] Hsome].
  split; [unfold heat_lut_pre; rewrite Hlo, Hhi; reflexivity|].
  split; [exact Hlo|]. split; [exact Hhi|].
  destruct (heat_lut (v_clamp k 100)) as [c|]; [exists c; reflexivity | discriminate].
Qed.

Lemma escape_count_range (mx0 my0 : float) :
  0 <= i (escape_loop 100 mx0 my0) <= 100.
Proof.
  destruct (while_loop_spec 100 mx0 my0 (Z.to_nat 100) loop_init)
    as (k & Hk & Hw & _).
  { simpl. lia. }
  unfold escape_loop. fold loop_init. rewrite Hw, i_iter. simpl i. lia.
Qed.

(** ** One thread of the kernel *)

(** [x >=? w] is false when [x < w]. *)
Ltac geb_false := rewrite Z.geb_leb; apply Z.leb_gt; assumption.

Section Thread.

Variables (width height pitch : Z) (blockDim : dim3).

Lemma mykernel_eq (t : thread_id) :
  mykernel width height pitch blockDim t =
  let x := thread_x blockDim t in
  let y := thread_y blockDim t in
  if (x >=? width) || (y >=? height) then Skip
  else
    let n := 100 in
    let mx0 := map_x x width in
    let my0 := map_y y height in
    let s := escape_loop n mx0 my0 in
    let off := y * pitch + sizeof_rgba8_t * x in
    match heat_lut (v_clamp (i s) n) with
    | Some color => Store off color
    | None => Trap
    end.
Proof. reflexivity. Qed.

(** A thread outside the image returns at once. *)
Lemma mykernel_skip (t : thread_id) :
  width <= thread_x blockDim t \/ height <= thread_y blockDim t ->
  mykernel width height pitch blockDim t = Skip.
Proof.
  intros Hout. rewrite mykernel_eq. cbv zeta.
  replace ((thread_x blockDim t >=? width) || (thread_y blockDim t >=? height))
    with true; [reflexivity|].
  symmetry. apply orb_true_iff. rewrite !Z.geb_leb, !Z.leb_le. exact Hout.
Qed.

(** A thread inside the image stores the colour of its pixel. *)
Lemma mykernel_store (t : thread_id) :
  thread_x blockDim t < width -> thread_y blockDim t < height ->
  exists c,
    heat_lut (pixel_scalar width height (thread_x blockDim t) (thread_y blockDim t))
    = Some c /\
    mykernel width height pitch blockDim t
    = Store (thread_y blockDim t * pitch + sizeof_rgba8_t * thread_x blockDim t) c.
Proof.
  intros Hx Hy. rewrite mykernel_eq. unfold pixel_scalar. cbv zeta.
  replace ((thread_x blockDim t >=? width) || (thread_y blockDim t >=? height))
    with false.
  - pose proof (escape_count_range (map_x (thread_x blockDim t) width)
                                   (map_y (thread_y blockDim t) height)) as Hr.
    revert Hr.
    generalize (i (escape_loop 100 (map_x (thread_x blockDim t) width)
                                   (map_y (thread_y blockDim t) height))).
    intros k Hk.
    destruct (heat_lut_defined k Hk) as (_ & _ & _ & c & Hc).
    exists c. rewrite Hc. split; reflexivity.
  - symmetry. apply orb_false_iff. split; geb_false.
Qed.

Lemma mykernel_store_inv (t : thread_id) (off : Z) (c : rgba8_t) :
  mykernel width height pitch blockDim t = Store off c ->
  thread_x blockDim t < width /\ thread_y blockDim t < height /\
  off = thread_y blockDim t * pitch + sizeof_rgba8_t * thread_x blockDim t /\
  heat_lut (pixel_scalar width height (thread_x blockDim t) (thread_y blockDim t))
  = Some c.
Proof.
  intros Hk.
  destruct (Z.lt_ge_cases (thread_x blockDim t) width) as [Hx|Hx];
    [|rewrite mykernel_skip in Hk by (left; exact Hx); discriminate].
  destruct (Z.lt_ge_cases (thread_y blockDim t) height) as [Hy|Hy];
    [|rewrite mykernel_skip in Hk by (right; exact Hy); discriminate].
  destruct (mykernel_store t Hx Hy) as (c' & Hc & Hs).
  rewrite Hs in Hk. inversion Hk; subst. auto.
Qed.

Lemma mykernel_not_trap (t : thread_id) :
  mykernel width height pitch blockDim t <> Trap.
Proof.
  destruct (Z.lt_ge_cases (thread_x blockDim t) width) as [Hx|Hx];
    [|rewrite mykernel_skip by (left; exact Hx); discriminate].
  destruct (Z.lt_ge_cases (thread_y blockDim t) height) as [Hy|Hy];
    [|rewrite mykernel_skip by (right; exact Hy); discriminate].
  destruct (mykernel_store t Hx Hy) as (c & _ & Hs).
  rewrite Hs. discriminate.
Qed.

End Thread.

(** C6: on every path of the kernel that reaches [heat_lut], for every
    image size and every thread, the argument [x] satisfies the asserted
    [0 <= x && x <= 1]; so the assertion never fires and no thread of the
    kernel traps. *)
Theorem heat_lut_precondition (width height pitch : Z) (blockDim : dim3)
        (t : thread_id) :
  heat_lut_pre
    (pixel_scalar width height (thread_x blockDim t) (thread_y blockDim t)) = true /\
  F32.leb f0
    (pixel_scalar width height (thread_x blockDim t) (thread_y blockDim t)) = true /\
  F32.leb
    (pixel_scalar width height (thread_x blockDim t) (thread_y blockDim t)) f1 = true /\
  mykernel width height pitch blockDim t <> Trap.
Proof.
  rewrite mykernel_eq. unfold pixel_scalar. cbv zeta.
  pose proof (escape_count_range (map_x (thread_x blockDim t) width)
                                 (map_y (thread_y blockDim t) height)) as Hr.
  revert Hr.
  generalize (i (escape_loop 100 (map_x (thread_x blockDim t) width)
                                 (map_y (thread_y blockDim t) height))).
  intros k Hk.
  destruct (heat_lut_defined k Hk) as (Hpre & Hlo & Hhi & c & Hc).
  split; [exact Hpre|]. split; [exact Hlo|]. split; [exact Hhi|].
  rewrite Hc. destruct (_ || _); discriminate.
Qed.



(** ** Band joins of [heat_lut] *)

Lemma digits2_pos_bound (m : positive) :
  Zpos m < 2 ^ Zpos (digits2_pos m).
Proof.
  induction m as [m IH|m IH|]; simpl digits2_pos;
    rewrite ?Pos2Z.inj_succ, ?Z.pow_succ_r by lia; lia.
Qed.

Lemma digits2_pos_lower (m : positive) :
  2 ^ (Zpos (digits2_pos m) - 1) <= Zpos m.
Proof.
  induction m as [m IH|m IH|]; cbn [digits2_pos];
    rewrite ?Pos2Z.inj_succ;
    try (replace (Z.succ (Zpos (digits2_pos m)) - 1)
           with (Z.succ (Zpos (digits2_pos m) - 1)) by lia;
         rewrite Z.pow_succ_r by (pose proof (Pos2Z.is_pos (digits2_pos m)); lia));
    lia.
Qed.

Lemma compare_cont_spec (p q : positive) :
  CompareSpec (p = q) (Zpos p < Zpos q) (Zpos q < Zpos p)
              (PosDef.Pos.compare_cont Eq p q).
Proof.
  change (PosDef.Pos.compare_cont Eq p q) with (Pos.compare p q).
  destruct (Pos.compare_spec p q) as [H|H|H]; constructor; exact H.
Qed.

(** Between a positive binary32 value of full mantissa [2^24 - 1] and the
    next power of two there is no other binary32 value. *)
Lemma no_float_below_pow2 (e : Z) (x : float) :
  -149 <= e ->
  is_float32 x = true ->
  F32.leb (S754_finite false 16777215 e) x = true ->
  F32.ltb x (S754_finite false 8388608 (e + 1)) = true ->
  x = S754_finite false 16777215 e.
Proof.
  intros He Hv Hle Hlt.
  destruct x as [s|s| |s m ex]; try destruct s; try discriminate.
  cbv [F32.leb F32.ltb SFleb SFltb SFcompare] in Hle, Hlt.
  unfold is_float32, valid_binary, bounded, canonical_mantissa in Hv.
  apply andb_true_iff in Hv. destruct Hv as [Hc _]. apply Z.eqb_eq in Hc.
  pose proof (digits2_pos_bound m) as Hd.
  unfold fexp, emin, F32.prec, F32.emax in Hc.
  destruct (Z.compare_spec e ex) as [Heq|Hl|Hg]; try discriminate.
  - subst ex.
    destruct (compare_cont_spec 16777215 m) as [Hm|Hm|Hm]; try discriminate.
    + subst m. reflexivity.
    + exfalso.
      assert (Zpos (digits2_pos m) <= 24) by lia.
      assert (2 ^ Zpos (digits2_pos m) <= 2 ^ 24) by (apply Z.pow_le_mono_r; lia).
      change (2 ^ 24) with 16777216 in *. lia.
  - exfalso.
    destruct (Z.compare_spec ex (e + 1)) as [Heq|Hl'|Hg]; try discriminate; try lia.
    subst ex.
    destruct (compare_cont_spec m 8388608) as [Hm|Hm|Hm]; try discriminate.
    assert (Hdig : Zpos (digits2_pos m) <= 23).
    { destruct (Z.le_gt_cases (Zpos (digits2_pos m)) 23) as [|Hbig]; [assumption|].
      exfalso. clear Hc Hle Hlt Hd.
      pose proof (digits2_pos_lower m) as Hlow.
      assert (2 ^ 23 <= 2 ^ (Zpos (digits2_pos m) - 1))
        by (apply Z.pow_le_mono_r; lia).
      change (2 ^ 23) with 8388608 in *. lia. }
    lia.
Qed.

(** Two binary32 values with the same exponent and adjacent mantissas
    have nothing between them. *)
Lemma no_float_between (m : positive) (e : Z) (x : float) :
  F32.leb (S754_finite false m e) x = true ->
  F32.ltb x (S754_finite false (Pos.succ m) e) = true ->
  x = S754_finite false m e.
Proof.
  intros Hle Hlt.
  destruct x as [s|s| |s mx ex]; try destruct s; try discriminate.
  cbv [F32.leb F32.ltb SFleb SFltb SFcompare] in Hle, Hlt.
  rewrite (Z.compare_antisym ex e) in Hle.
  destruct (Z.compare_spec ex e) as [Heq|Hl|Hg]; simpl in Hle; try discriminate.
  subst ex.
  destruct (compare_cont_spec m mx) as [Hm|Hm|Hm]; try discriminate.
  - subst mx. reflexivity.
  - destruct (compare_cont_spec mx (Pos.succ m)) as [Hm'|Hm'|Hm']; try discriminate.
    rewrite Pos2Z.inj_succ in Hm'. lia.
Qed.

(** Every binary32 value below [x2 = 0.75] is at most [below_x2]. *)
Lemma below_x2_greatest (lo : float) :
  F32.ltb lo x2 = true -> F32.leb lo below_x2 = true.
Proof.
  intros Hlt.
  destruct lo as [s|s| |s m e]; try destruct s; try discriminate; try reflexivity.
  change x2 with (S754_finite false 12582912 (-24)) in Hlt.
  cbv [below_x2 F32.leb F32.ltb SFleb SFltb SFcompare] in *.
  destruct (e ?= -24); try discriminate; try reflexivity.
  destruct (compare_cont_spec m 12582912) as [Hm|Hm|Hm]; try discriminate.
  destruct (compare_cont_spec m 12582911) as [Hm'|Hm'|Hm']; try reflexivity.
  lia.
Qed.

Lemma heat_lut_alpha (x : float) (c : rgba8_t) :
  heat_lut x = Some c -> a c = 255.
Proof.
  unfold heat_lut, heat_lut_body.
  destruct (heat_lut_pre x); [|discriminate].
  repeat match goal with
         | |- context [if ?t then _ else _] => destruct t
         | |- context [match to_uint8 ?f with _ => _ end] => destruct (to_uint8 f)
         end;
    intros H; inversion H; reflexivity.
Qed.

(** C3 (as the code has it): [heat_lut] gives [(0,0,255,255)] at [0],
    [(0,255,255,255)] at [0.25], [(0,255,0,255)] at [0.5] and at [0.75].
    The channel cast truncates, so the limits from below at the joins are
    [(0,254,255,255)] at [0.25] (one level under the value at the join),
    [(0,255,0,255)] at [0.5] (the value at the join) and [(254,255,0,255)]
    at [0.75], where red falls from 254 to 0; alpha is 255 in every
    colour returned. *)
Theorem heat_lut_band_joins :
  x0 = F32.dyadic 1 (-2) /\ x1 = F32.dyadic 1 (-1) /\ x2 = F32.dyadic 3 (-2) /\
  heat_lut f0 = Some (mk_rgba8 0 0 255 255) /\
  heat_lut x0 = Some (mk_rgba8 0 255 255 255) /\
  heat_lut x1 = Some (mk_rgba8 0 255 0 255) /\
  heat_lut x2 = Some (mk_rgba8 0 255 0 255) /\
  left_limit heat_lut x0 (mk_rgba8 0 254 255 255) /\
  left_limit heat_lut x1 (mk_rgba8 0 255 0 255) /\
  left_limit heat_lut x2 (mk_rgba8 254 255 0 255) /\
  (forall x c, heat_lut x = Some c -> a c = 255).
Proof.
  do 7 (split; [vm_compute; reflexivity|]).
  split; [|split; [|split]].
  - exists below_x0. split; [reflexivity|]. split; [reflexivity|].
    intros x Hv Hle Hlt.
    rewrite (no_float_below_pow2 (-26) x); try assumption; try lia.
    vm_compute. reflexivity.
  - exists below_x1. split; [reflexivity|]. split; [reflexivity|].
    intros x Hv Hle Hlt.
    rewrite (no_float_below_pow2 (-25) x); try assumption; try lia.
    vm_compute. reflexivity.
  - exists below_x2. split; [reflexivity|]. split; [reflexivity|].
    intros x Hv Hle Hlt.
    rewrite (no_float_between 12582911 (-24) x); try assumption.
    vm_compute. reflexivity.
  - exact heat_lut_alpha.
Qed.

(** C3 as stated fails: the limit from below of the third band at
    [0.75] is not [(255,255,0,255)] (red stops at 254), and the limit of
    the first band at [0.25] is not the value [(0,255,255,255)] taken at
    [0.25]. *)
Lemma heat_lut_band3_limit_not_255 :
  ~ left_limit heat_lut x2 (mk_rgba8 255 255 0 255) /\
  heat_lut below_x2 = Some (mk_rgba8 254 255 0 255) /\
  heat_lut below_x0 = Some (mk_rgba8 0 254 255 255).
Proof.
  split; [|split; vm_compute; reflexivity].
  intros (lo & _ & Hlt & Hall).
  specialize (Hall below_x2 eq_refl (below_x2_greatest lo Hlt) eq_refl).
  vm_compute in Hall. discriminate.
Qed.

(** ** [clamp] at the ends of its domain *)

Lemma binary_round_aux_opp (s : bool) (m e : Z) (l : location) :
  binary_round_aux F32.prec F32.emax (negb s) m e l
  = SFopp (binary_round_aux F32.prec F32.emax s m e l).
Proof.
  unfold binary_round_aux.
  destruct (shr_fexp F32.prec F32.emax m e l) as [mrs' e'].
  destruct (shr_fexp F32.prec F32.emax _ e' loc_Exact) as [mrs'' e''].
  destruct (shr_m mrs''); simpl; try reflexivity.
  destruct (e'' <=? _); reflexivity.
Qed.

(** Rounding to nearest even is symmetric about zero. *)
Lemma binary_normalize_opp (z e : Z) :
  z <> 0 ->
  binary_normalize F32.prec F32.emax (- z) e false
  = SFopp (binary_normalize F32.prec F32.emax z e false).
Proof.
  intros Hz. destruct z as [|p|p]; [congruence| |]; simpl; unfold binary_round;
    destruct (shl_align _ _ _) as [mz ez].
  - apply (binary_round_aux_opp false).
  - rewrite (binary_round_aux_opp false).
    destruct (binary_round_aux F32.prec F32.emax false (Z.pos mz) ez loc_Exact);
      simpl; rewrite ?negb_involutive; reflexivity.
Qed.

Lemma div_eucl_div_mod (n d : Z) : Z.div_eucl n d = (n / d, n mod d).
Proof. unfold Z.div, Z.modulo. destruct (Z.div_eucl n d); reflexivity. Qed.

(** [(-d) / d = -1] for every finite non-zero [d]. *)
Lemma div_opp_self (s : bool) (m : positive) (e : Z) :
  F32.div (S754_finite (negb s) m e) (S754_finite s m e) = minus_one.
Proof.
  unfold F32.div, SFdiv, SFdiv_core_binary.
  replace (Zdigits2 (Z.pos m) + e - (Zdigits2 (Z.pos m) + e)) with 0 by lia.
  replace (e - e) with 0 by lia.
  change (Z.min (fexp F32.prec F32.emax 0) 0) with (-24).
  change (0 - -24) with 24.
  cbv iota beta.
  rewrite div_eucl_div_mod, Z.shiftl_mul_pow2 by lia.
  rewrite (Z.mul_comm (Z.pos m)), Z.div_mul, Z_mod_mult by lia.
  replace (xorb (negb s) s) with true by (destruct s; reflexivity).
  unfold new_location. destruct (Z.even (Z.pos m)); reflexivity.
Qed.

Lemma sub_self (x : float) :
  F32.is_finite x = true -> F32.sub x x = S754_zero false.
Proof.
  destruct x as [s|s| |s m e]; try discriminate; intros _.
  - destruct s; reflexivity.
  - unfold F32.sub, SFsub. rewrite Z.sub_diag. reflexivity.
Qed.

(** Swapping the operands of a subtraction flips the sign of a non-zero
    finite result. *)
Lemma sub_swap (x y : float) (s : bool) (m : positive) (e : Z) :
  F32.is_finite x = true -> F32.is_finite y = true ->
  F32.sub x y = S754_finite s m e ->
  F32.sub y x = S754_finite (negb s) m e.
Proof.
  destruct x as [sx|sx| |sx mx ex], y as [sy|sy| |sy my ey];
    try discriminate; intros _ _; unfold F32.sub; simpl.
  - destruct sx, sy; discriminate.
  - intros H; inversion H; subst. rewrite negb_involutive. reflexivity.
  - intros H; inversion H; subst. reflexivity.
  - rewrite (Z.min_comm ey ex).
    set (X := cond_Zopp sx (Z.pos (fst (shl_align mx ex (Z.min ex ey))))).
    set (Y := cond_Zopp sy (Z.pos (fst (shl_align my ey (Z.min ex ey))))).
    intros H.
    assert (Hnz : X - Y <> 0).
    { intros H0. rewrite H0 in H. discriminate. }
    replace (Y - X) with (- (X - Y)) by lia.
    rewrite binary_normalize_opp by exact Hnz.
    rewrite H. reflexivity.
Qed.

Lemma clamp_low_end (a1 a2 min max : float) :
  F32.is_finite a1 = true ->
  F32.is_finite_nonzero (F32.sub a1 a2) = true ->
  F32.is_finite (F32.sub min max) = true ->
  F32.is_finite min = true -> min <> S754_zero true ->
  clamp a1 a1 a2 min max = min.
Proof.
  intros Ha1 Hd Hr Hmin Hneg. unfold clamp. rewrite (sub_self a1 Ha1).
  destruct (F32.sub a1 a2) as [ | | |sd md ed]; try discriminate.
  unfold F32.div. cbn [SFdiv].
  destruct (F32.sub min max) as [sr| | |sr mr er]; try discriminate;
    unfold F32.mul; cbn [SFmul];
    destruct min as [sm| | |sm mm em]; try discriminate;
    unfold F32.add; cbn [SFadd]; try reflexivity;
    destruct sm; try congruence;
    destruct (xorb _ _); reflexivity.
Qed.

Lemma clamp_high_end (a1 a2 min max : float) :
  F32.is_finite a1 = true -> F32.is_finite a2 = true ->
  F32.is_finite_nonzero (F32.sub a1 a2) = true ->
  clamp a2 a1 a2 min max
  = F32.add (F32.mul minus_one (F32.sub min max)) min.
Proof.
  intros Ha1 Ha2 Hd. unfold clamp.
  destruct (F32.sub a1 a2) as [ | | |sd md ed] eqn:Hsub; try discriminate.
  rewrite (sub_swap a1 a2 sd md ed Ha1 Ha2 Hsub), div_opp_self. reflexivity.
Qed.

(** C2 (as the code has it): [clamp] is the binary32 evaluation of
    [((a - a1) / (a1 - a2)) * (min - max) + min], each operation rounded.
    For finite [a1], [a2] with [a1 - a2] finite and non-zero, finite
    [min - max] and finite [min] other than [-0]: [a = a1] gives exactly
    [min]; [a = a2] gives [(-1 * (min - max)) + min] rounded twice, which
    is exactly [max] for the three target ranges the kernel uses,
    [[-2.5, 1]], [[-1, 1]] and [[0, 1]]; arguments outside the domain
    extrapolate. *)
Theorem clamp_endpoints (a a1 a2 min max : float) :
  F32.is_finite a1 = true -> F32.is_finite a2 = true ->
  F32.is_finite_nonzero (F32.sub a1 a2) = true ->
  F32.is_finite (F32.sub min max) = true ->
  F32.is_finite min = true -> min <> S754_zero true ->
  clamp a a1 a2 min max
  = F32.add (F32.mul (F32.div (F32.sub a a1) (F32.sub a1 a2)) (F32.sub min max)) min /\
  clamp a1 a1 a2 min max = min /\
  clamp a2 a1 a2 min max = F32.add (F32.mul minus_one (F32.sub min max)) min /\
  clamp a2 a1 a2 (F32.dyadic (-5) (-1)) f1 = f1 /\
  clamp a2 a1 a2 minus_one f1 = f1 /\
  clamp a2 a1 a2 f0 f1 = f1 /\
  clamp f2 f0 f1 f0 f1 = f2 /\
  clamp minus_one f0 f1 f0 f1 = minus_one.
Proof.
  intros Ha1 Ha2 Hd Hr Hmin Hneg.
  split; [reflexivity|].
  split; [apply clamp_low_end; assumption|].
  split; [apply clamp_high_end; assumption|].
  rewrite !clamp_high_end by assumption.
  repeat split; vm_compute; reflexivity.
Qed.

Lemma clamp_endpoints_witness :
  clamp f0 f0 f2 (F32.dyadic (-5) (-1)) f1 = F32.dyadic (-5) (-1) /\
  clamp f2 f0 f2 (F32.dyadic (-5) (-1)) f1 = f1.
Proof.
  destruct (clamp_endpoints f1 f0 f2 (F32.dyadic (-5) (-1)) f1)
    as (_ & Hlow & _ & Hhigh & _);
    try (vm_compute; reflexivity).
  - vm_compute. discriminate.
  - split; [exact Hlow | exact Hhigh].
Defined.

(** C2 as stated fails at [a = a2]: with [a1 = 0], [a2 = 1],
    [min = 2^25] and [max = 1] the difference [min - max] rounds to
    [2^25], and [clamp] returns [0], not [max]. *)
Lemma clamp_high_end_not_max :
  clamp f1 f0 f1 (F32.dyadic 1 25) f1 = f0 /\
  clamp f1 f0 f1 (F32.dyadic 1 25) f1 <> f1.
Proof. split; [vm_compute; reflexivity | vm_compute; discriminate]. Qed.

(** ** Threads of a launch and their stores *)

Lemma in_zrange (n z : Z) : In z (zrange n) <-> 0 <= z < n.
Proof.
  unfold zrange. rewrite in_map_iff. split.
  - intros (k & <- & Hk). apply in_seq in Hk. lia.
  - intros Hz. exists (Z.to_nat z). split; [lia|]. apply in_seq. lia.
Qed.

Lemma in_grid_threads (grid block : dim3) (t : thread_id) :
  In t (grid_threads grid block) <->
  0 <= dim_x (blockIdx t) < dim_x grid /\ 0 <= dim_y (blockIdx t) < dim_y grid /\
  0 <= dim_x (threadIdx t) < dim_x block /\ 0 <= dim_y (threadIdx t) < dim_y block.
Proof.
  unfold grid_threads. rewrite in_flat_map. split.
  - intros (by_ & Hby & H). apply in_flat_map in H. destruct H as (bx & Hbx & H).
    apply in_flat_map in H. destruct H as (ty & Hty & H).
    apply in_map_iff in H. destruct H as (tx & <- & Htx).
    apply in_zrange in Hby, Hbx, Hty, Htx. simpl. lia.
  - destruct t as [[bx by_] [tx ty]]. simpl. intros (Hbx & Hby & Htx & Hty).
    exists by_. split; [apply in_zrange, Hby|].
    apply in_flat_map. exists bx. split; [apply in_zrange, Hbx|].
    apply in_flat_map. exists ty. split; [apply in_zrange, Hty|].
    apply in_map_iff. exists tx. split; [reflexivity | apply in_zrange, Htx].
Qed.

Lemma wrap_int_small (z : Z) : 0 <= z < 2147483648 -> wrap_int z = z.
Proof.
  intros Hz. unfold wrap_int. rewrite Z.mod_small by lia. lia.
Qed.

(** Coordinates of a thread of the launch, when the launch spans fewer
    than [2^31] threads in each direction. *)
Lemma thread_xy_in_launch (grid block : dim3) (t : thread_id) :
  dim_x block * dim_x grid <= 2147483648 ->
  dim_y block * dim_y grid <= 2147483648 ->
  In t (grid_threads grid block) ->
  thread_x block t = dim_x block * dim_x (blockIdx t) + dim_x (threadIdx t) /\
  thread_y block t = dim_y block * dim_y (blockIdx t) + dim_y (threadIdx t) /\
  0 <= thread_x block t < dim_x block * dim_x grid /\
  0 <= thread_y block t < dim_y block * dim_y grid.
Proof.
  intros Hgx Hgy Hin. apply in_grid_threads in Hin.
  destruct Hin as (Hbx & Hby & Htx & Hty).
  assert (Hx : 0 <= dim_x block * dim_x (blockIdx t) + dim_x (threadIdx t)
               < dim_x block * dim_x grid) by nia.
  assert (Hy : 0 <= dim_y block * dim_y (blockIdx t) + dim_y (threadIdx t)
               < dim_y block * dim_y grid) by nia.
  unfold thread_x, thread_y. rewrite !wrap_int_small by lia.
  repeat split; lia.
Qed.

Lemma thread_xy_injective (grid block : dim3) (t t' : thread_id) :
  dim_x block * dim_x grid <= 2147483648 ->
  dim_y block * dim_y grid <= 2147483648 ->
  In t (grid_threads grid block) -> In t' (grid_threads grid block) ->
  thread_x block t = thread_x block t' ->
  thread_y block t = thread_y block t' ->
  t = t'.
Proof.
  intros Hgx Hgy Hin Hin' Hx Hy.
  destruct (thread_xy_in_launch grid block t Hgx Hgy Hin) as (Ex & Ey & _ & _).
  destruct (thread_xy_in_launch grid block t' Hgx Hgy Hin') as (Ex' & Ey' & _ & _).
  rewrite Ex, Ex' in Hx. rewrite Ey, Ey' in Hy.
  apply in_grid_threads in Hin, Hin'.
  destruct t as [[bx by_] [tx ty]], t' as [[bx' by_'] [tx' ty']].
  simpl in *.
  assert (bx = bx') by nia. assert (by_ = by_') by nia.
  subst. assert (tx = tx') by lia. assert (ty = ty') by lia.
  subst. reflexivity.
Qed.

Lemma thread_id_eq_dec (t t' : thread_id) : {t = t'} + {t <> t'}.
Proof. repeat decide equality. Qed.

(** The stores of two distinct threads of a launch touch disjoint bytes,
    the rows being at least [4 * width] bytes apart. *)
Lemma distinct_threads_disjoint (width height pitch : Z) (grid blockDim : dim3)
      (t t' : thread_id) (off off' : Z) (c c' : rgba8_t) :
  sizeof_rgba8_t * width <= pitch ->
  dim_x blockDim * dim_x grid <= 2147483648 ->
  dim_y blockDim * dim_y grid <= 2147483648 ->
  In t (grid_threads grid blockDim) -> In t' (grid_threads grid blockDim) ->
  t <> t' ->
  mykernel width height pitch blockDim t = Store off c ->
  mykernel width height pitch blockDim t' = Store off' c' ->
  off + 4 <= off' \/ off' + 4 <= off.
Proof.
  intros Hpitch Hgx Hgy Hin Hin' Hneq Hs Hs'.
  apply mykernel_store_inv in Hs, Hs'.
  destruct Hs as (Hx & Hy & -> & _). destruct Hs' as (Hx' & Hy' & -> & _).
  destruct (thread_xy_in_launch grid blockDim t Hgx Hgy Hin) as (_ & _ & Hx0 & Hy0).
  destruct (thread_xy_in_launch grid blockDim t' Hgx Hgy Hin') as (_ & _ & Hx0' & Hy0').
  assert (Hdiff : thread_x blockDim t <> thread_x blockDim t'
                  \/ thread_y blockDim t <> thread_y blockDim t').
  { destruct (Z.eq_dec (thread_x blockDim t) (thread_x blockDim t')) as [Ex|Ex];
      [|left; exact Ex].
    destruct (Z.eq_dec (thread_y blockDim t) (thread_y blockDim t')) as [Ey|Ey];
      [|right; exact Ey].
    exfalso. apply Hneq.
    apply (thread_xy_injective grid blockDim); assumption. }
  unfold sizeof_rgba8_t in *.
  revert Hx Hy Hx' Hy' Hx0 Hy0 Hx0' Hy0' Hdiff.
  generalize (thread_x blockDim t) (thread_y blockDim t)
             (thread_x blockDim t') (thread_y blockDim t').
  intros x y x' y' Hx Hy Hx' Hy' Hx0 Hy0 Hx0' Hy0' Hdiff.
  destruct (Z.lt_trichotomy y y') as [Hlt|[Heq|Hgt]].
  - left. assert (pitch <= (y' - y) * pitch) by nia. nia.
  - subst y'. destruct Hdiff as [Hd|Hd]; [|congruence]. lia.
  - right. assert (pitch <= (y - y') * pitch) by nia. nia.
Qed.

(** ** Device memory after the kernel *)

Lemma store_uchar4_other (m : mem) (off : Z) (c : rgba8_t) (k : Z) :
  k < off \/ off + 4 <= k -> store_uchar4 m off c k = m k.
Proof.
  intros Hk. unfold store_uchar4, store_byte.
  repeat match goal with
         | |- context [?u =? ?v] => destruct (Z.eqb_spec u v); [lia|]
         end.
  reflexivity.
Qed.

Lemma read_store_uchar4 (m : mem) (off : Z) (c : rgba8_t) :
  read_uchar4 (store_uchar4 m off c) off = c.
Proof.
  unfold read_uchar4, store_uchar4, store_byte.
  destruct c as [cr cg cb ca]. cbn [r g b a].
  repeat match goal with
         | |- context [?u =? ?v] =>
             destruct (Z.eqb_spec u v); try lia
         end.
  reflexivity.
Qed.

Lemma read_store_uchar4_other (m : mem) (off off' : Z) (c : rgba8_t) :
  off' + 4 <= off \/ off + 4 <= off' ->
  read_uchar4 (store_uchar4 m off' c) off = read_uchar4 m off.
Proof.
  intros Hfar. unfold read_uchar4.
  rewrite !store_uchar4_other by lia. reflexivity.
Qed.

(** No thread of the kernel traps, so a launch always completes. *)
Lemma run_threads_defined (width height pitch : Z) (blockDim : dim3)
      (ts : list thread_id) :
  forall m, exists m',
    run_threads (mykernel width height pitch blockDim) ts m = Some m'.
Proof.
  induction ts as [|t ts IH]; intros m; simpl.
  - exists m. reflexivity.
  - destruct (mykernel width height pitch blockDim t) as [|off c|] eqn:Hk.
    + apply IH.
    + apply IH.
    + exfalso. exact (mykernel_not_trap width height pitch blockDim t Hk).
Qed.

(** A byte that no thread of the list stores to keeps its contents. *)
Lemma run_threads_untouched (k : thread_id -> thread_result)
      (ts : list thread_id) (addr : Z) :
  (forall t off c, In t ts -> k t = Store off c -> addr < off \/ off + 4 <= addr) ->
  forall m m', run_threads k ts m = Some m' -> m' addr = m addr.
Proof.
  induction ts as [|t ts IH]; intros Hfar m m' Hrun; simpl in Hrun.
  - inversion Hrun. reflexivity.
  - assert (Hfar' : forall t0 off c, In t0 ts -> k t0 = Store off c ->
                                     addr < off \/ off + 4 <= addr).
    { intros t0 off c Hin. apply Hfar. right. exact Hin. }
    destruct (k t) as [|off c|] eqn:Hk.
    + apply (IH Hfar' _ _ Hrun).
    + rewrite (IH Hfar' _ _ Hrun).
      apply store_uchar4_other. apply (Hfar t off c); [left; reflexivity | exact Hk].
    + discriminate.
Qed.

(** If every store of the list either is the store of colour [c] at
    offset [off] or lies apart from it, and some thread of the list does
    store [c] there, the four bytes at [off] hold [c] at the end. *)
Lemma run_threads_owned (k : thread_id -> thread_result) (off : Z)
      (c : rgba8_t) (ts : list thread_id) :
  (forall t off' c', In t ts -> k t = Store off' c' ->
      (off' = off /\ c' = c) \/ off' + 4 <= off \/ off + 4 <= off') ->
  forall m m',
    run_threads k ts m = Some m' ->
    (exists t, In t ts /\ k t = Store off c) \/ read_uchar4 m off = c ->
    read_uchar4 m' off = c.
Proof.
  induction ts as [|t ts IH]; intros Hsep m m' Hrun Hsrc; cbn [run_threads] in Hrun.
  - injection Hrun as <-. destruct Hsrc as [(t & [] & _)|Hm]. exact Hm.
  - assert (Hsep' : forall t0 off' c', In t0 ts -> k t0 = Store off' c' ->
              (off' = off /\ c' = c) \/ off' + 4 <= off \/ off + 4 <= off').
    { intros t0 off' c' Hin. apply Hsep. right. exact Hin. }
    destruct (k t) as [|off' c'|] eqn:Hk; [| |discriminate].
    + apply (IH Hsep' _ _ Hrun).
      destruct Hsrc as [(t0 & [Ht0|Ht0] & Hs)|Hm].
      * subst t0. congruence.
      * left. exists t0. split; assumption.
      * right. exact Hm.
    + apply (IH Hsep' _ _ Hrun).
      destruct (Hsep t off' c' (or_introl eq_refl) Hk) as [[-> ->]|Hfar].
      * right. apply read_store_uchar4.
      * destruct Hsrc as [(t0 & [Ht0|Ht0] & Hs)|Hm].
        -- subst t0. rewrite Hs in Hk. injection Hk as Hoff _. lia.
        -- left. exists t0. split; assumption.
        -- right. rewrite <- Hm. apply read_store_uchar4_other. exact Hfar.
Qed.

(** After a launch that covers pixel [(x, y)] of the image, the device
    buffer holds at that pixel the colour the kernel computes for it. *)
Lemma run_threads_pixel (width height pitch : Z) (grid blockDim : dim3)
      (m m' : mem) (x y : Z) :
  sizeof_rgba8_t * width <= pitch ->
  0 < dim_x blockDim -> 0 < dim_y blockDim ->
  dim_x blockDim * dim_x grid <= 2147483648 ->
  dim_y blockDim * dim_y grid <= 2147483648 ->
  0 <= x < width -> 0 <= y < height ->
  x < dim_x blockDim * dim_x grid -> y < dim_y blockDim * dim_y grid ->
  run_threads (mykernel width height pitch blockDim)
              (grid_threads grid blockDim) m = Some m' ->
  pixel_color width height x y = Some (read_pixel m' pitch x y).
Proof.
  intros Hpitch Hbx Hby Hgx Hgy Hx Hy Hcx Hcy Hrun.
  set (t := mk_thread (mk_dim3 (x / dim_x blockDim) (y / dim_y blockDim))
                      (mk_dim3 (x mod dim_x blockDim) (y mod dim_y blockDim))).
  assert (Hin : In t (grid_threads grid blockDim)).
  { apply in_grid_threads. unfold t. simpl.
    pose proof (Z.mod_pos_bound x (dim_x blockDim) Hbx).
    pose proof (Z.mod_pos_bound y (dim_y blockDim) Hby).
    pose proof (Z.div_pos x (dim_x blockDim)).
    pose proof (Z.div_pos y (dim_y blockDim)).
    assert (x / dim_x blockDim < dim_x grid)
      by (apply Z.div_lt_upper_bound; lia).
    assert (y / dim_y blockDim < dim_y grid)
      by (apply Z.div_lt_upper_bound; lia).
    lia. }
  destruct (thread_xy_in_launch grid blockDim t Hgx Hgy Hin) as (Ex & Ey & _ & _).
  assert (Etx : thread_x blockDim t = x).
  { rewrite Ex. unfold t. simpl. symmetry. apply Z.div_mod. lia. }
  assert (Ety : thread_y blockDim t = y).
  { rewrite Ey. unfold t. simpl. symmetry. apply Z.div_mod. lia. }
  destruct (mykernel_store width height pitch blockDim t) as (c & Hc & Hs);
    [lia | lia |].
  rewrite Etx, Ety in Hc, Hs.
  unfold pixel_color. rewrite Hc. f_equal. symmetry.
  unfold read_pixel.
  apply (run_threads_owned (mykernel width height pitch blockDim)
                           (y * pitch + sizeof_rgba8_t * x) c
                           (grid_threads grid blockDim)) with (m := m).
  - intros t' off' c' Hin' Hs'.
    apply mykernel_store_inv in Hs'. destruct Hs' as (Hx' & Hy' & -> & Hc').
    destruct (thread_xy_in_launch grid blockDim t' Hgx Hgy Hin')
      as (_ & _ & Hx0 & Hy0).
    revert Hx' Hy' Hc' Hx0 Hy0.
    generalize (thread_x blockDim t') (thread_y blockDim t').
    intros x' y' Hx' Hy' Hc' Hx0 Hy0.
    unfold sizeof_rgba8_t in *.
    destruct (Z.lt_trichotomy y' y) as [Hlt|[Heq|Hgt]].
    + right. left. assert (pitch <= (y - y') * pitch) by nia. nia.
    + subst y'. destruct (Z.lt_trichotomy x' x) as [Hl|[He|Hg]].
      * right. left. lia.
      * subst x'. left. split; [reflexivity | congruence].
      * right. right. lia.
    + right. right. assert (pitch <= (y' - y) * pitch) by nia. nia.
  - exact Hrun.
  - left. exists t. split; assumption.
Qed.

(** Either some thread of the list stores over the byte [addr], or none
    does. *)
Lemma covered_or_not (k : thread_id -> thread_result) (addr : Z)
      (ts : list thread_id) :
  (exists t off c, In t ts /\ k t = Store off c /\ off <= addr < off + 4)
  \/ (forall t off c, In t ts -> k t = Store off c ->
                      addr < off \/ off + 4 <= addr).
Proof.
  induction ts as [|t ts IH].
  - right. intros t off c [].
  - destruct IH as [(t0 & off & c & Hin & Hs & Hr)|Hnone].
    + left. exists t0, off, c. split; [right; exact Hin | split; assumption].
    + destruct (k t) as [|off c|] eqn:Hk.
      * right. intros t0 off c [<-|Hin] Hs; [congruence | eauto].
      * destruct (Z_le_gt_dec off addr) as [Hlo|Hlo];
          [destruct (Z_lt_ge_dec addr (off + 4)) as [Hhi|Hhi]|].
        -- left. exists t, off, c.
           split; [left; reflexivity | split; [exact Hk | lia]].
        -- right. intros t0 off0 c0 [<-|Hin] Hs; [|eauto].
           rewrite Hs in Hk. injection Hk as -> _. lia.
        -- right. intros t0 off0 c0 [<-|Hin] Hs; [|eauto].
           rewrite Hs in Hk. injection Hk as -> _. lia.
      * right. intros t0 off c [<-|Hin] Hs; [congruence | eauto].
Qed.

(** The buffer after the kernel does not depend on the order in which
    the threads ran, as long as two stores are either the same store or
    touch different bytes. *)
Lemma run_threads_any_order (k : thread_id -> thread_result)
      (ts ts' : list thread_id) (m m1 m2 : mem) :
  (forall t, In t ts <-> In t ts') ->
  (forall t t' off c off' c',
      In t ts -> In t' ts -> k t = Store off c -> k t' = Store off' c' ->
      (off' = off /\ c' = c) \/ off' + 4 <= off \/ off + 4 <= off') ->
  run_threads k ts m = Some m1 ->
  run_threads k ts' m = Some m2 ->
  forall addr, m1 addr = m2 addr.
Proof.
  intros Hsame Hsep Hrun1 Hrun2 addr.
  destruct (covered_or_not k addr ts) as [(t & off & c & Hin & Hs & Hr)|Hnone].
  - assert (H1 : read_uchar4 m1 off = c).
    { apply (run_threads_owned k off c ts) with (m := m); [|exact Hrun1|].
      - intros t' off' c' Hin' Hs'. exact (Hsep t t' off c off' c' Hin Hin' Hs Hs').
      - left. exists t. split; assumption. }
    assert (H2 : read_uchar4 m2 off = c).
    { apply (run_threads_owned k off c ts') with (m := m); [|exact Hrun2|].
      - intros t' off' c' Hin' Hs'. apply Hsame in Hin'.
        exact (Hsep t t' off c off' c' Hin Hin' Hs Hs').
      - left. exists t. split; [apply Hsame; exact Hin | exact Hs]. }
    rewrite <- H2 in H1. unfold read_uchar4 in H1.
    injection H1 as E0 E1 E2 E3.
    assert (Hcase : addr = off \/ addr = off + 1 \/ addr = off + 2
                    \/ addr = off + 3) by lia.
    destruct Hcase as [Ha|[Ha|[Ha|Ha]]]; subst addr; assumption.
  - rewrite (run_threads_untouched k ts addr Hnone m m1 Hrun1).
    symmetry. apply (run_threads_untouched k ts' addr); [|exact Hrun2].
    intros t off c Hin. apply Hnone. apply Hsame. exact Hin.
Qed.

(** For the kernel: any order of the threads of a launch gives the same
    device buffer. *)
Lemma launch_any_order (width height pitch : Z) (grid blockDim : dim3)
      (ts' : list thread_id) (m m1 m2 : mem) :
  sizeof_rgba8_t * width <= pitch ->
  dim_x blockDim * dim_x grid <= 2147483648 ->
  dim_y blockDim * dim_y grid <= 2147483648 ->
  (forall t, In t (grid_threads grid blockDim) <-> In t ts') ->
  launch grid blockDim (mykernel width height pitch blockDim) m = Some m1 ->
  run_threads (mykernel width height pitch blockDim) ts' m = Some m2 ->
  forall addr, m1 addr = m2 addr.
Proof.
  intros Hpitch Hgx Hgy Hsame Hrun1 Hrun2.
  apply (run_threads_any_order (mykernel width height pitch blockDim)
                               (grid_threads grid blockDim) ts' m);
    try assumption.
  intros t t' off c off' c' Hin Hin' Hs Hs'.
  destruct (thread_xy_in_launch grid blockDim t Hgx Hgy Hin) as (_ & _ & Hx0 & Hy0).
  destruct (thread_xy_in_launch grid blockDim t' Hgx Hgy Hin') as (_ & _ & Hx0' & Hy0').
  apply mykernel_store_inv in Hs, Hs'.
  destruct Hs as (Hx & Hy & -> & Hc). destruct Hs' as (Hx' & Hy' & -> & Hc').
  revert Hx Hy Hc Hx' Hy' Hc' Hx0 Hy0 Hx0' Hy0'.
  generalize (thread_x blockDim t) (thread_y blockDim t)
             (thread_x blockDim t') (thread_y blockDim t').
  intros x y x' y' Hx Hy Hc Hx' Hy' Hc' Hx0 Hy0 Hx0' Hy0'.
  unfold sizeof_rgba8_t in *.
  destruct (Z.lt_trichotomy y' y) as [Hlt|[Heq|Hgt]].
  - right. left. assert (pitch <= (y - y') * pitch) by nia. nia.
  - subst y'. destruct (Z.lt_trichotomy x' x) as [Hl|[He|Hg]].
    + right. left. lia.
    + subst x'. left. split; [reflexivity | congruence].
    + right. right. lia.
  - right. right. assert (pitch <= (y' - y) * pitch) by nia. nia.
Qed.

(** C8: in a launch, run on the device buffer [m]:
    a thread with [x >= width] or [y >= height] returns without a store
    and leaves the buffer as it is; every other thread performs exactly
    one store, after which the four bytes at offset [y * pitch + 4 * x]
    (row [y], column [x]) hold the colour of its pixel and every other
    byte of the buffer is unchanged; no other thread of the launch
    changes any of these four bytes, whatever buffer it runs on; and so,
    in whatever order the threads of the launch run, the four bytes hold
    that colour when the kernel ends. *)
Theorem one_pixel_per_thread (width height pitch : Z) (grid blockDim : dim3)
        (t : thread_id) (m : mem) :
  sizeof_rgba8_t * width <= pitch ->
  dim_x blockDim * dim_x grid <= 2147483648 ->
  dim_y blockDim * dim_y grid <= 2147483648 ->
  In t (grid_threads grid blockDim) ->
  (width <= thread_x blockDim t \/ height <= thread_y blockDim t ->
   mykernel width height pitch blockDim t = Skip /\
   run_threads (mykernel width height pitch blockDim) [t] m = Some m) /\
  (thread_x blockDim t < width -> thread_y blockDim t < height ->
   exists c m1,
     pixel_color width height (thread_x blockDim t) (thread_y blockDim t)
     = Some c /\
     mykernel width height pitch blockDim t
     = Store (thread_y blockDim t * pitch + 4 * thread_x blockDim t) c /\
     run_threads (mykernel width height pitch blockDim) [t] m = Some m1 /\
     read_uchar4 m1 (thread_y blockDim t * pitch + 4 * thread_x blockDim t) = c /\
     (forall addr,
         addr < thread_y blockDim t * pitch + 4 * thread_x blockDim t
         \/ thread_y blockDim t * pitch + 4 * thread_x blockDim t + 4 <= addr ->
         m1 addr = m addr) /\
     (forall t' m0 m0',
         In t' (grid_threads grid blockDim) -> t' <> t ->
         run_threads (mykernel width height pitch blockDim) [t'] m0 = Some m0' ->
         forall addr,
           thread_y blockDim t * pitch + 4 * thread_x blockDim t <= addr
           < thread_y blockDim t * pitch + 4 * thread_x blockDim t + 4 ->
           m0' addr = m0 addr) /\
     (forall ts m2,
         (forall u, In u (grid_threads grid blockDim) <-> In u ts) ->
         run_threads (mykernel width height pitch blockDim) ts m = Some m2 ->
         read_uchar4 m2 (thread_y blockDim t * pitch + 4 * thread_x blockDim t)
         = c)).
Proof.
  intros Hpitch Hgx Hgy Hin. split.
  { intros Hout.
    pose proof (mykernel_skip width height pitch blockDim t Hout) as Hs.
    split; [exact Hs|]. cbn [run_threads]. rewrite Hs. reflexivity. }
  intros Hx Hy.
  destruct (mykernel_store width height pitch blockDim t Hx Hy) as (c & Hc & Hs).
  change sizeof_rgba8_t with 4 in Hs.
  revert Hs.
  generalize (thread_y blockDim t * pitch + 4 * thread_x blockDim t).
  intros off Hs.
  exists c, (store_uchar4 m off c).
  split; [exact Hc|]. split; [exact Hs|].
  split; [cbn [run_threads]; rewrite Hs; reflexivity|].
  split; [apply read_store_uchar4|].
  split; [intros addr Haddr; apply store_uchar4_other; exact Haddr|].
  split.
  - intros t' m0 m0' Hin' Hne Hrun addr Haddr.
    cbn [run_threads] in Hrun.
    destruct (mykernel width height pitch blockDim t') as [|off' c'|] eqn:Hs';
      [injection Hrun as <-; reflexivity | | discriminate].
    injection Hrun as <-.
    apply store_uchar4_other.
    destruct (distinct_threads_disjoint width height pitch grid blockDim
                t t' off off' c c' Hpitch Hgx Hgy Hin Hin'
                ltac:(congruence) Hs Hs') as [Hd|Hd]; lia.
  - intros ts m2 Hsame Hrun.
    apply (run_threads_owned (mykernel width height pitch blockDim) off c ts)
      with (m := m); [|exact Hrun|].
    + intros u off' c' Hu Hs'.
      apply Hsame in Hu.
      destruct (thread_id_eq_dec u t) as [->|Hne].
      * left. rewrite Hs in Hs'. injection Hs' as <- <-. split; reflexivity.
      * right.
        destruct (distinct_threads_disjoint width height pitch grid blockDim
                    t u off off' c c' Hpitch Hgx Hgy Hin Hu
                    ltac:(congruence) Hs Hs') as [Hd|Hd]; lia.
    + left. exists t. split; [apply Hsame; exact Hin | exact Hs].
Qed.

Lemma one_pixel_per_thread_witness :
  (exists c m1,
      run_threads (mykernel 2 2 512 (mk_dim3 32 32))
                  [mk_thread (mk_dim3 0 0) (mk_dim3 1 0)] (fun _ => 7) = Some m1 /\
      read_uchar4 m1 4 = c /\ m1 3 = 7 /\ m1 8 = 7) /\
  run_threads (mykernel 2 2 512 (mk_dim3 32 32))
              [mk_thread (mk_dim3 0 0) (mk_dim3 2 0)] (fun _ => 7)
  = Some (fun _ => 7).
Proof.
  assert (Hin : forall tx ty, 0 <= tx < 32 -> 0 <= ty < 32 ->
                  In (mk_thread (mk_dim3 0 0) (mk_dim3 tx ty))
                     (grid_threads (mk_dim3 1 1) (mk_dim3 32 32))).
  { intros tx ty Htx Hty. apply in_grid_threads. simpl. lia. }
  destruct (one_pixel_per_thread 2 2 512 (mk_dim3 1 1) (mk_dim3 32 32)
              (mk_thread (mk_dim3 0 0) (mk_dim3 1 0)) (fun _ => 7)
              ltac:(vm_compute; congruence) ltac:(vm_compute; congruence)
              ltac:(vm_compute; congruence) (Hin 1 0 ltac:(lia) ltac:(lia)))
    as (_ & Hstore).
  destruct (one_pixel_per_thread 2 2 512 (mk_dim3 1 1) (mk_dim3 32 32)
              (mk_thread (mk_dim3 0 0) (mk_dim3 2 0)) (fun _ => 7)
              ltac:(vm_compute; congruence) ltac:(vm_compute; congruence)
              ltac:(vm_compute; congruence) (Hin 2 0 ltac:(lia) ltac:(lia)))
    as (Hskip & _).
  destruct (Hstore ltac:(vm_compute; reflexivity) ltac:(vm_compute; reflexivity))
    as (c & m1 & _ & _ & Hrun & Hread & Hframe & _).
  destruct (Hskip ltac:(left; vm_compute; congruence)) as (_ & Hrun').
  split; [|exact Hrun'].
  exists c, m1. split; [exact Hrun|]. split; [exact Hread|].
  split.
  - apply Hframe. left. vm_compute. reflexivity.
  - apply Hframe. right. vm_compute. congruence.
Defined.

(** ** [render] *)

Lemma copy_rows_at (dpitch spitch wbytes : Z) (src : mem) (row k : Z)
      (rows : list Z) :
  0 <= k < wbytes -> wbytes <= dpitch -> 0 <= row ->
  (forall r', In r' rows -> 0 <= r') ->
  forall dst,
    fold_left (fun m r' => copy_row m (r' * dpitch) src (r' * spitch) wbytes)
              rows dst (row * dpitch + k)
    = if existsb (Z.eqb row) rows then src (row * spitch + k)
      else dst (row * dpitch + k).
Proof.
  intros Hk Hw Hrow.
  induction rows as [|r' rows IH]; intros Hpos dst; cbn [fold_left existsb].
  - reflexivity.
  - rewrite IH by (intros q Hq; apply Hpos; right; exact Hq).
    destruct (existsb (Z.eqb row) rows); [rewrite orb_true_r; reflexivity|].
    rewrite orb_false_r. unfold copy_row.
    assert (Hr' : 0 <= r') by (apply Hpos; left; reflexivity).
    destruct (Z.eqb_spec row r') as [->|Hne].
    + replace ((r' * dpitch <=? r' * dpitch + k)
               && (r' * dpitch + k <? r' * dpitch + wbytes)) with true.
      * f_equal. lia.
      * symmetry. apply andb_true_iff. split; [apply Z.leb_le | apply Z.ltb_lt]; lia.
    + replace ((r' * dpitch <=? row * dpitch + k)
               && (row * dpitch + k <? r' * dpitch + wbytes)) with false;
        [reflexivity|].
      symmetry. apply andb_false_iff.
      destruct (Z.lt_trichotomy row r') as [Hlt|[Heq|Hgt]]; [|congruence|].
      * left. apply Z.leb_gt. nia.
      * right. apply Z.ltb_ge. nia.
Qed.

(** A byte of row [row], column byte [k], after [cudaMemcpy2D]. *)
Lemma cudaMemcpy2D_at (dst src : mem) (dpitch spitch wbytes height row k : Z) :
  0 <= k < wbytes -> wbytes <= dpitch -> 0 <= row < height ->
  cudaMemcpy2D dst dpitch src spitch wbytes height (row * dpitch + k)
  = src (row * spitch + k).
Proof.
  intros Hk Hw Hrow. unfold cudaMemcpy2D.
  rewrite copy_rows_at; try lia.
  - replace (existsb (Z.eqb row) (zrange height)) with true; [reflexivity|].
    symmetry. apply existsb_exists. exists row.
    split; [apply in_zrange; lia | apply Z.eqb_refl].
  - intros r' Hr'. apply in_zrange in Hr'. lia.
Qed.

Lemma zrange_1 : zrange 1 = [0].
Proof. reflexivity. Qed.

(** With a single row the two pitches play no role. *)
Lemma cudaMemcpy2D_one_row (dst src : mem) (dpitch spitch wbytes : Z) (k : Z) :
  0 <= k < wbytes ->
  cudaMemcpy2D dst dpitch src spitch wbytes 1 (0 * dpitch + k)
  = src (0 * spitch + k).
Proof.
  intros Hk. unfold cudaMemcpy2D. rewrite zrange_1.
  cbn [fold_left]. unfold copy_row.
  replace ((0 * dpitch <=? 0 * dpitch + k)
           && (0 * dpitch + k <? 0 * dpitch + wbytes))
    with true; [f_equal; lia|].
  symmetry. apply andb_true_iff. split; [apply Z.leb_le | apply Z.ltb_lt]; lia.
Qed.

Lemma read_pixel_memcpy (dst src : mem) (dpitch spitch width height x y : Z) :
  0 <= x < width -> 0 <= y < height ->
  sizeof_rgba8_t * width <= dpitch ->
  read_pixel (cudaMemcpy2D dst dpitch src spitch (width * sizeof_rgba8_t) height)
             dpitch x y
  = read_pixel src spitch x y.
Proof.
  intros Hx Hy Hp. unfold read_pixel, read_uchar4, sizeof_rgba8_t in *.
  rewrite <- !Z.add_assoc.
  rewrite !cudaMemcpy2D_at by lia. reflexivity.
Qed.

(** The paths through [render]: the first failing call aborts with its
    message; when every call succeeds the launch completes and the host
    buffer receives the 2D copy of the device buffer. *)
Lemma render_outcomes (rt : cuda_runtime) (hostBuffer : mem)
      (width height stride n_iterations : Z) (dimBlock dimGrid : dim3) :
  launch_geometry width height = Some (dimBlock, dimGrid) ->
  exists dev',
    run_threads (mykernel width height (malloc_pitch rt) dimBlock)
                (grid_threads dimGrid dimBlock) (malloc_contents rt) = Some dev' /\
    render rt hostBuffer width height stride n_iterations
    = if negb (malloc_rc rt =? 0) then
        Exited [LogAbort "Fail buffer allocation" "render" 99;
                LogCuda (last_error rt)] 1
      else if negb (peek_rc rt =? 0) then
        Exited [LogDebug (dim_x dimGrid) (dim_y dimGrid);
                LogAbort "Computation Error" "render" 114;
                LogCuda (last_error rt)] 1
      else if negb (memcpy_rc rt =? 0) then
        Exited [LogDebug (dim_x dimGrid) (dim_y dimGrid);
                LogAbort "Unable to copy buffer back to memory" "render" 120;
                LogCuda (last_error rt)] 1
      else if negb (free_rc rt =? 0) then
        Exited [LogDebug (dim_x dimGrid) (dim_y dimGrid);
                LogAbort "Unable to free memory" "render" 125;
                LogCuda (last_error rt)] 1
      else
        Returned [LogDebug (dim_x dimGrid) (dim_y dimGrid)]
                 (cudaMemcpy2D hostBuffer stride dev' (malloc_pitch rt)
                               (width * sizeof_rgba8_t) height).
Proof.
  intros Hgeom.
  destruct (run_threads_defined width height (malloc_pitch rt) dimBlock
              (grid_threads dimGrid dimBlock) (malloc_contents rt)) as [dev' Hdev].
  exists dev'. split; [exact Hdev|].
  unfold render. rewrite Hgeom. cbv zeta. unfold launch. rewrite Hdev.
  unfold abortError.
  destruct (negb (malloc_rc rt =? 0)); [reflexivity|].
  destruct (negb (peek_rc rt =? 0)); [reflexivity|].
  destruct (negb (memcpy_rc rt =? 0)); [reflexivity|].
  destruct (negb (free_rc rt =? 0)); reflexivity.
Qed.

(** C4: the result of [render] does not depend on [n_iterations]: two
    calls that agree on the host buffer, [width], [height], [stride] and
    on what the runtime answers end the same way and leave the same bytes
    in the host buffer; the loop bound is the constant 100. *)
Theorem render_ignores_n_iterations (rt : cuda_runtime) (hostBuffer : mem)
        (width height stride n1 n2 : Z) :
  render rt hostBuffer width height stride n1
  = render rt hostBuffer width height stride n2 /\
  forall pitch blockDim t,
    mykernel width height pitch blockDim t
    = let x := thread_x blockDim t in
      let y := thread_y blockDim t in
      if (x >=? width) || (y >=? height) then Skip
      else
        match heat_lut (v_clamp (i (escape_loop 100 (map_x x width)
                                                (map_y y height))) 100) with
        | Some color => Store (y * pitch + sizeof_rgba8_t * x) color
        | None => Trap
        end.
Proof. split; [reflexivity | intros; apply mykernel_eq]. Qed.

(** ** The launch geometry *)

Lemma launch_block_fixed (width height : Z) (dimBlock dimGrid : dim3) :
  launch_geometry width height = Some (dimBlock, dimGrid) ->
  dimBlock = mk_dim3 32 32.
Proof.
  unfold launch_geometry. cbv zeta.
  destruct (to_int _) as [w|]; [|discriminate].
  destruct (to_int _) as [h|]; [|discriminate].
  intros H. inversion H. reflexivity.
Qed.

Lemma wide_geometry :
  launch_geometry 16777217 1 = Some (mk_dim3 32 32, mk_dim3 524288 1).
Proof. vm_compute. reflexivity. Qed.

(** No thread of the launch for a [16777217 x 1] image has [x = 16777216]. *)
Lemma wide_threads (t : thread_id) :
  In t (grid_threads (mk_dim3 524288 1) (mk_dim3 32 32)) ->
  0 <= thread_x (mk_dim3 32 32) t < 16777216 /\
  0 <= thread_y (mk_dim3 32 32) t < 32.
Proof.
  intros Hin.
  destruct (thread_xy_in_launch (mk_dim3 524288 1) (mk_dim3 32 32) t)
    as (_ & _ & Hx & Hy); [cbn; lia | cbn; lia | exact Hin |].
  cbn [dim_x dim_y] in Hx, Hy. lia.
Qed.

(** ** The launch geometry for images up to [2^24] pixels a side *)

Lemma digits2_pos_shift (p k : positive) :
  Zpos (digits2_pos (Pos.iter xO p k)) = Zpos (digits2_pos p) + Zpos k.
Proof.
  induction k as [|k IH] using Pos.peano_ind.
  - cbn [Pos.iter digits2_pos]. lia.
  - rewrite Pos.iter_succ. cbn [digits2_pos]. rewrite Pos2Z.inj_succ, IH. lia.
Qed.

Lemma pos_iter_xO (p k : positive) :
  Zpos (Pos.iter xO p k) = Zpos p * 2 ^ Zpos k.
Proof.
  induction k as [|k IH] using Pos.peano_ind.
  - cbn [Pos.iter]. lia.
  - rewrite Pos.iter_succ, Pos2Z.inj_succ, Z.pow_succ_r by lia.
    rewrite Pos2Z.inj_xO, IH. lia.
Qed.

(** Rounding a mantissa that already has 24 digits changes nothing. *)
Lemma round_canonical (s : bool) (m : positive) (e : Z) :
  Zpos (digits2_pos m) = 24 -> -149 <= e <= 104 ->
  binary_round_aux F32.prec F32.emax s (Zpos m) e loc_Exact = S754_finite s m e.
Proof.
  intros Hd He.
  assert (Hshift : fexp F32.prec F32.emax (Zdigits2 (Zpos m) + e) - e = 0).
  { unfold fexp, emin, F32.prec, F32.emax. cbn [Zdigits2]. rewrite Hd. lia. }
  unfold binary_round_aux, shr_fexp. rewrite Hshift.
  cbn [shr shr_record_of_loc shr_m loc_of_shr_record round_nearest_even].
  rewrite Hshift. cbn [shr shr_record_of_loc shr_m].
  replace (e <=? F32.emax - F32.prec) with true; [reflexivity|].
  symmetry. apply Z.leb_le. unfold F32.emax, F32.prec. lia.
Qed.

(** A positive integer below [2^24] converts to [float] exactly. *)
Lemma of_int_small (w : positive) :
  Zpos w < 2 ^ 24 ->
  exists (m : positive) (e : Z),
    F32.of_int (Zpos w) = S754_finite false m e /\
    Zpos (digits2_pos m) = 24 /\ -23 <= e <= 0 /\
    Zpos m = Zpos w * 2 ^ (- e).
Proof.
  intros Hw.
  assert (Hd : 1 <= Zpos (digits2_pos w) <= 24).
  { split; [lia|].
    destruct (Z.le_gt_cases (Zpos (digits2_pos w)) 24) as [|Hbig]; [assumption|].
    exfalso. pose proof (digits2_pos_lower w) as Hlow.
    assert (2 ^ 24 <= 2 ^ (Zpos (digits2_pos w) - 1))
      by (apply Z.pow_le_mono_r; lia).
    lia. }
  unfold F32.of_int, binary_normalize, binary_round.
  replace (fexp F32.prec F32.emax (Zpos (digits2_pos w) + 0))
    with (Zpos (digits2_pos w) - 24)
    by (unfold fexp, emin, F32.prec, F32.emax; lia).
  unfold shl_align.
  destruct (Zpos (digits2_pos w) - 24 - 0) as [|k|k] eqn:Hk.
  - exists w, 0. rewrite round_canonical by lia.
    repeat split; lia.
  - lia.
  - exists (Pos.iter xO w k), (Zpos (digits2_pos w) - 24).
    assert (Hk' : Zpos k = 24 - Zpos (digits2_pos w)) by lia.
    rewrite round_canonical.
    + repeat split; try lia.
      * rewrite digits2_pos_shift. lia.
      * rewrite pos_iter_xO. f_equal. f_equal. lia.
    + rewrite digits2_pos_shift. lia.
    + lia.
Qed.

Lemma of_int_32 : F32.of_int 32 = S754_finite false 8388608 (-18).
Proof. reflexivity. Qed.

(** Dividing a normal number by 32 only lowers its exponent. *)
Lemma div_32 (m : positive) (e : Z) :
  Zpos (digits2_pos m) = 24 -> -100 <= e <= 100 ->
  F32.div (S754_finite false m e) (S754_finite false 8388608 (-18))
  = S754_finite false m (e - 5).
Proof.
  intros Hd He. unfold F32.div, SFdiv, SFdiv_core_binary.
  cbn [Zdigits2]. rewrite Hd.
  change (Zpos (digits2_pos 8388608)) with 24.
  replace (Z.min (fexp F32.prec F32.emax (24 + e - (24 + -18))) (e - -18))
    with (e - 6)
    by (unfold fexp, emin, F32.prec, F32.emax; lia).
  replace (e - -18 - (e - 6)) with 24 by lia.
  cbv iota beta.
  rewrite div_eucl_div_mod, Z.shiftl_mul_pow2 by lia.
  replace (Zpos m * 2 ^ 24) with (Zpos (m~0) * 8388608) by lia.
  rewrite Z.div_mul, Z_mod_mult by lia.
  change (new_location 8388608 0) with loc_Exact.
  cbn [xorb].
  assert (Hshift : fexp F32.prec F32.emax (Zdigits2 (Zpos m~0) + (e - 6))
                   - (e - 6) = 1).
  { cbn [Zdigits2 digits2_pos]. rewrite Pos2Z.inj_succ, Hd.
    unfold fexp, emin, F32.prec, F32.emax. lia. }
  unfold binary_round_aux, shr_fexp. rewrite Hshift.
  cbn [shr shr_record_of_loc iter_pos shr_1 orb shr_m loc_of_shr_record
       round_nearest_even].
  replace (fexp F32.prec F32.emax (Zdigits2 (Zpos m) + (e - 6 + 1)) - (e - 6 + 1))
    with 0
    by (cbn [Zdigits2]; rewrite Hd; unfold fexp, emin, F32.prec, F32.emax; lia).
  cbn [shr shr_m].
  replace (e - 6 + 1 <=? F32.emax - F32.prec) with true
    by (symmetry; apply Z.leb_le; unfold F32.emax, F32.prec; lia).
  f_equal. lia.
Qed.

(** Conversion back to [int] of a converted integer below [2^24]. *)
Lemma to_int_of_int_small (c : Z) :
  0 <= c < 2 ^ 24 -> to_int (F32.of_int c) = Some c.
Proof.
  intros Hc. destruct c as [|c|c]; [reflexivity| |lia].
  destruct (of_int_small c) as (m & e & Hf & _ & He & Hm); [lia|].
  rewrite Hf. unfold to_int, F32.truncate, F32.trunc_mag. cbn [cond_Zopp].
  assert (Hval : match e with
                 | Z.neg p => Z.shiftr (Z.pos m) (Z.pos p)
                 | _ => Z.shiftl (Z.pos m) e
                 end = Zpos c).
  { destruct e as [|p|p]; [|lia|].
    - rewrite Z.shiftl_0_r, Hm. change (2 ^ (- 0)) with 1. lia.
    - rewrite Z.shiftr_div_pow2 by lia. rewrite Hm.
      change (- Z.neg p) with (Zpos p). apply Z.div_mul.
      apply Z.pow_nonzero; lia. }
  rewrite Hval.
  replace ((INT_MIN <=? Zpos c) && (Zpos c <=? INT_MAX)) with true; [reflexivity|].
  symmetry. apply andb_true_iff. unfold INT_MIN, INT_MAX.
  split; apply Z.leb_le; lia.
Qed.

(** One grid dimension, as [render] computes it, is the ceiling of
    [n / 32] whenever [0 < n <= 2^24]. *)
Lemma grid_dim_small (n : Z) :
  0 < n <= 2 ^ 24 ->
  to_int (F32.ceil (F32.div (F32.of_int n) (F32.of_int 32)))
  = Some (ceil_div n 32).
Proof.
  intros Hn.
  destruct (Z.eq_dec n (2 ^ 24)) as [->|Hne]; [vm_compute; reflexivity|].
  destruct n as [|w|w]; try lia.
  destruct (of_int_small w) as (m & e & Hf & Hd & He & Hm); [lia|].
  rewrite Hf, of_int_32, div_32 by lia.
  unfold F32.ceil.
  destruct (e - 5) as [|p|p] eqn:Hp; try lia.
  assert (Hpow : 2 ^ Zpos p = 32 * 2 ^ (- e)).
  { replace (Zpos p) with (5 + - e) by lia.
    rewrite Z.pow_add_r by lia. reflexivity. }
  assert (Hpos : 0 < 2 ^ (- e)) by (apply Z.pow_pos_nonneg; lia).
  assert (Hq : Z.shiftr (Zpos m) (Zpos p) = Zpos w / 32).
  { rewrite Z.shiftr_div_pow2 by lia. rewrite Hpow, Hm.
    rewrite Z.div_mul_cancel_r by lia. reflexivity. }
  rewrite Hq.
  assert (Hex : (Z.shiftl (Zpos w / 32) (Zpos p) =? Zpos m)
                = (Zpos w mod 32 =? 0)).
  { rewrite Z.shiftl_mul_pow2 by lia. rewrite Hpow, Hm.
    pose proof (Z.div_mod (Zpos w) 32 ltac:(lia)) as Hdm.
    pose proof (Z.mod_pos_bound (Zpos w) 32 ltac:(lia)) as Hmb.
    destruct (Z.eqb_spec (Zpos w mod 32) 0) as [H0|H0].
    - apply Z.eqb_eq. nia.
    - apply Z.eqb_neq. nia. }
  rewrite Hex.
  assert (Hceil : (if Zpos w mod 32 =? 0 then Zpos w / 32 else Zpos w / 32 + 1)
                  = ceil_div (Zpos w) 32).
  { unfold ceil_div.
    pose proof (Z.div_mod (Zpos w) 32 ltac:(lia)) as Hdm.
    pose proof (Z.mod_pos_bound (Zpos w) 32 ltac:(lia)) as Hmb.
    destruct (Z.eqb_spec (Zpos w mod 32) 0) as [H0|H0].
    - apply Z.div_unique with (r := 31); lia.
    - apply Z.div_unique with (r := Zpos w mod 32 - 1); lia. }
  rewrite Hceil.
  apply to_int_of_int_small.
  unfold ceil_div. split.
  - apply Z.div_pos; lia.
  - apply Z.div_lt_upper_bound; lia.
Qed.

(** For images of at most [2^24] pixels a side the block is [32 x 32] and
    the grid is [ceil(width / 32) x ceil(height / 32)], which covers the
    image. *)
Lemma launch_geometry_small (width height : Z) :
  0 < width <= 2 ^ 24 -> 0 < height <= 2 ^ 24 ->
  launch_geometry width height
  = Some (mk_dim3 32 32, mk_dim3 (ceil_div width 32) (ceil_div height 32)) /\
  width <= 32 * ceil_div width 32 < width + 32 /\
  height <= 32 * ceil_div height 32 < height + 32.
Proof.
  intros Hw Hh. unfold launch_geometry. cbv zeta.
  rewrite !grid_dim_small by assumption.
  split; [reflexivity|].
  unfold ceil_div.
  pose proof (Z.div_mod (width + 32 - 1) 32 ltac:(lia)).
  pose proof (Z.mod_pos_bound (width + 32 - 1) 32 ltac:(lia)).
  pose proof (Z.div_mod (height + 32 - 1) 32 ltac:(lia)).
  pose proof (Z.mod_pos_bound (height + 32 - 1) 32 ltac:(lia)).
  lia.
Qed.

(** A complete render of an image of at most [2^24] pixels a side: when
    every runtime call succeeds and both row strides hold a row, [render]
    returns and every pixel of the host buffer holds the colour the
    kernel computes for it. *)
Lemma render_small_image (rt : cuda_runtime) (hostBuffer : mem)
      (width height stride n_iterations : Z) :
  0 < width <= 2 ^ 24 -> 0 < height <= 2 ^ 24 ->
  all_succeed rt = true ->
  sizeof_rgba8_t * width <= malloc_pitch rt ->
  sizeof_rgba8_t * width <= stride ->
  exists host',
    render rt hostBuffer width height stride n_iterations
    = Returned [LogDebug (ceil_div width 32) (ceil_div height 32)] host' /\
    forall x y, 0 <= x < width -> 0 <= y < height ->
                pixel_color width height x y = Some (read_pixel host' stride x y).
Proof.
  intros Hw Hh Hok Hpitch Hstride.
  unfold all_succeed in Hok. rewrite !andb_true_iff in Hok.
  destruct Hok as [[[Hm Hp] Hc] Hf].
  destruct (launch_geometry_small width height Hw Hh) as (Hgeom & Hcw & Hch).
  destruct (render_outcomes rt hostBuffer width height stride n_iterations
              _ _ Hgeom) as (dev' & Hdev & Hr).
  rewrite Hm, Hp, Hc, Hf in Hr. cbn [negb dim_x dim_y] in Hr.
  eexists. split; [exact Hr|].
  intros x y Hx Hy.
  rewrite read_pixel_memcpy by assumption.
  apply (run_threads_pixel width height (malloc_pitch rt)
           (mk_dim3 (ceil_div width 32) (ceil_div height 32)) (mk_dim3 32 32)
           (malloc_contents rt) dev' x y);
    cbn [dim_x dim_y]; try assumption; try lia.
Qed.

(** C7: the block is always [32 x 32], and for [width] and [height] up
    to [2^24] the grid is [ceil(width / 32) x ceil(height / 32)].  At
    [width = 16777217], [height = 1] the grid has [524288] blocks across
    where [ceil(16777217 / 32) = 524289]: the conversion of [width] to
    [float] rounds it to [2^24], and the launch has no thread for the
    last pixel column. *)
Theorem launch_geometry_wide_image :
  (forall width height dimBlock dimGrid,
      launch_geometry width height = Some (dimBlock, dimGrid) ->
      dimBlock = mk_dim3 32 32) /\
  (forall width height,
      0 < width <= 2 ^ 24 -> 0 < height <= 2 ^ 24 ->
      launch_geometry width height
      = Some (mk_dim3 32 32, mk_dim3 (ceil_div width 32) (ceil_div height 32))) /\
  F32.of_int 16777217 = F32.of_int 16777216 /\
  launch_geometry 16777217 1 = Some (mk_dim3 32 32, mk_dim3 524288 1) /\
  ceil_div 16777217 32 = 524289 /\
  ceil_div 1 32 = 1 /\
  forall t, In t (grid_threads (mk_dim3 524288 1) (mk_dim3 32 32)) ->
            thread_x (mk_dim3 32 32) t <> 16777216.
Proof.
  split; [exact launch_block_fixed|].
  split; [intros width height Hw Hh; apply launch_geometry_small; assumption|].
  split; [vm_compute; reflexivity|].
  split; [exact wide_geometry|].
  split; [vm_compute; reflexivity|].
  split; [vm_compute; reflexivity|].
  intros t Hin. pose proof (wide_threads t Hin). lia.
Qed.

(** C9, evaluated at [width = 16777217], [height = 1] with a runtime in
    which every call succeeds: [render] returns normally, yet the last
    pixel of the row in the host buffer is whatever the fresh device
    allocation contained; no thread computed it.  Same defect as in the
    launch geometry. *)
Theorem render_wide_image_incomplete (rt : cuda_runtime) (hostBuffer : mem)
        (stride n_iterations : Z) :
  all_succeed rt = true ->
  exists host',
    render rt hostBuffer 16777217 1 stride n_iterations
    = Returned [LogDebug 524288 1] host' /\
    read_pixel host' stride 16777216 0
    = read_pixel (malloc_contents rt) (malloc_pitch rt) 16777216 0.
Proof.
  intros Hok. unfold all_succeed in Hok. rewrite !andb_true_iff in Hok.
  destruct Hok as [[[Hm Hp] Hc] Hf].
  destruct (render_outcomes rt hostBuffer 16777217 1 stride n_iterations
              _ _ wide_geometry) as (dev' & Hdev & Hr).
  rewrite Hm, Hp, Hc, Hf in Hr. cbn [negb dim_x dim_y] in Hr.
  eexists. split; [exact Hr|].
  pose proof (cudaMemcpy2D_one_row hostBuffer dev' stride (malloc_pitch rt)
                                   (16777217 * sizeof_rgba8_t)) as Hrow.
  assert (Hkeep : forall k, 16777216 * 4 <= k ->
            dev' (0 * malloc_pitch rt + k)
            = malloc_contents rt (0 * malloc_pitch rt + k)).
  { intros k Hk.
    apply (run_threads_untouched
             (mykernel 16777217 1 (malloc_pitch rt) (mk_dim3 32 32))
             (grid_threads (mk_dim3 524288 1) (mk_dim3 32 32)));
      [|exact Hdev].
    intros t off c Hin Hs.
    apply mykernel_store_inv in Hs. destruct Hs as (_ & Hy & -> & _).
    destruct (wide_threads t Hin) as [Hx Hy0].
    revert Hx Hy Hy0.
    generalize (thread_x (mk_dim3 32 32) t) (thread_y (mk_dim3 32 32) t).
    intros x y Hx Hy Hy0. assert (y = 0) by lia. subst y.
    unfold sizeof_rgba8_t. right. lia. }
  unfold read_pixel, read_uchar4, sizeof_rgba8_t in *.
  rewrite <- !Z.add_assoc.
  rewrite !Hrow by lia. rewrite !Hkeep by lia. reflexivity.
Qed.

Lemma render_wide_image_incomplete_witness :
  exists host',
    render (mk_runtime 0 67108868 (fun _ => 7) 0 0 0 0) (fun _ => 9)
           16777217 1 67108868 100
    = Returned [LogDebug 524288 1] host' /\
    read_pixel host' 67108868 16777216 0 = mk_rgba8 7 7 7 7 /\
    pixel_color 16777217 1 16777216 0 = Some (mk_rgba8 0 20 255 255).
Proof.
  destruct (render_wide_image_incomplete
              (mk_runtime 0 67108868 (fun _ => 7) 0 0 0 0) (fun _ => 9)
              67108868 100 eq_refl) as (host' & Hr & Hpix).
  exists host'. split; [exact Hr|]. split; [exact Hpix|].
  vm_compute. reflexivity.
Defined.


(** * Further properties of the code *)

(** ** Iteration counts and colours *)

Lemma rgba8_eqb_eq (c d : rgba8_t) : rgba8_eqb c d = true <-> c = d.
Proof.
  destruct c as [cr cg cb ca], d as [dr dg db da]. unfold rgba8_eqb. cbn [r g b a].
  rewrite !andb_true_iff, !Z.eqb_eq. split.
  - intros [[[-> ->] ->] ->]. reflexivity.
  - intros H. injection H as -> -> -> ->. auto.
Qed.

Lemma same_color_eq (o o' : option rgba8_t) : o = o' -> same_color o o' = true.
Proof.
  intros <-. destruct o as [c|]; [apply rgba8_eqb_eq; reflexivity | reflexivity].
Qed.

Lemma for_all_count_pairs (p : Z * Z -> bool) :
  forallb p count_pairs = true ->
  forall k l, 0 <= k <= 100 -> 0 <= l <= 100 -> p (k, l) = true.
Proof.
  intros Hall k l Hk Hl. rewrite forallb_forall in Hall.
  apply Hall. unfold count_pairs. apply in_prod; apply counts_complete; assumption.
Qed.

Lemma v_clamp_order_check :
  forallb (fun kl => negb (fst kl <? snd kl)
                     || F32.ltb (v_clamp (fst kl) 100) (v_clamp (snd kl) 100))
          count_pairs = true.
Proof. vm_compute. reflexivity. Qed.

(** X1: The normalisation keeps the order of the counts: a larger iteration
    count gives a strictly larger scalar, from exactly [0] at count 0 to
    exactly [1] at the cap. *)
Theorem v_clamp_strictly_increasing (k l : Z) :
  0 <= k -> k < l -> l <= 100 ->
  F32.ltb (v_clamp k 100) (v_clamp l 100) = true /\
  F32.leb (v_clamp 0 100) (v_clamp k 100) = true /\
  F32.leb (v_clamp l 100) (v_clamp 100 100) = true /\
  v_clamp 0 100 = f0 /\ v_clamp 100 100 = f1.
Proof.
  intros Hk Hkl Hl.
  assert (Hlt : forall u v, 0 <= u -> u < v -> v <= 100 ->
                  F32.ltb (v_clamp u 100) (v_clamp v 100) = true).
  { intros u v Hu Huv Hv.
    pose proof (for_all_count_pairs _ v_clamp_order_check u v
                  ltac:(lia) ltac:(lia)) as H.
    cbv beta in H. cbn [fst snd] in H.
    apply orb_true_iff in H. destruct H as [H|H]; [|exact H].
    apply negb_true_iff, Z.ltb_ge in H. lia. }
  assert (Hle : forall u v, 0 <= u -> u <= v -> v <= 100 ->
                  F32.leb (v_clamp u 100) (v_clamp v 100) = true).
  { intros u v Hu Huv Hv.
    destruct (Z.eq_dec u v) as [->|Hne].
    - destruct (heat_lut_defined v ltac:(lia)) as (_ & Hlo & _).
      revert Hlo. unfold F32.leb, SFleb.
      generalize (v_clamp v 100). intros f.
      destruct f as [s|s| |s m e]; cbn [SFcompare]; try discriminate;
        try (destruct s; reflexivity).
      destruct s; [discriminate|]. intros _.
      rewrite Z.compare_refl.
      destruct (compare_cont_spec m m) as [_|H|H]; [reflexivity|lia|lia].
    - specialize (Hlt u v Hu ltac:(lia) Hv).
      revert Hlt. unfold F32.ltb, F32.leb, SFltb, SFleb.
      destruct (SFcompare _ _) as [[ | | ]|]; congruence. }
  split; [apply Hlt; assumption|].
  split; [apply Hle; lia|].
  split; [apply Hle; lia|].
  split; vm_compute; reflexivity.
Qed.

Lemma v_clamp_strictly_increasing_witness :
  F32.ltb (v_clamp 1 100) (v_clamp 2 100) = true.
Proof. apply (v_clamp_strictly_increasing 1 2); lia. Defined.

Lemma palette_check :
  forallb (fun kl => (fst kl =? snd kl)
                     || negb (same_color (count_color (fst kl))
                                         (count_color (snd kl))))
          count_pairs = true.
Proof. vm_compute. reflexivity. Qed.

(** X2: Different iteration counts are shown in different colours: the count
    of a pixel can be read back from its colour. *)
Theorem count_color_injective (k l : Z) :
  0 <= k <= 100 -> 0 <= l <= 100 -> k <> l ->
  heat_lut (v_clamp k 100) <> heat_lut (v_clamp l 100).
Proof.
  intros Hk Hl Hne Heq.
  pose proof (for_all_count_pairs _ palette_check k l Hk Hl) as H.
  cbv beta in H. cbn [fst snd] in H. unfold count_color in H.
  apply orb_true_iff in H. destruct H as [H|H]; [apply Z.eqb_eq in H; lia|].
  rewrite (same_color_eq _ _ Heq) in H. discriminate.
Qed.

Lemma count_color_injective_witness :
  3 <> 4 /\ heat_lut (v_clamp 3 100) <> heat_lut (v_clamp 4 100).
Proof.
  split; [lia|]. apply (count_color_injective 3 4); lia.
Defined.

Lemma while_loop_step (k : nat) (n : Z) (mx0 my0 : float) (s : loop_state) :
  while_loop (S k) n mx0 my0 s
  = if loop_cond n s then while_loop k n mx0 my0 (loop_body mx0 my0 s) else s.
Proof. reflexivity. Qed.

Lemma loop_cond_init : loop_cond 100 (mk_loop f0 f0 0) = true.
Proof. vm_compute. reflexivity. Qed.

(** The loop body runs at least once, whatever the mapped point. *)
Lemma escape_count_positive (mx0 my0 : float) :
  1 <= i (escape_loop 100 mx0 my0).
Proof.
  unfold escape_loop.
  rewrite (eq_refl : Z.to_nat 100 = S 99), while_loop_step, loop_cond_init.
  assert (Hi : i (loop_body mx0 my0 (mk_loop f0 f0 0)) = 1) by reflexivity.
  destruct (while_loop_spec 100 mx0 my0 99
              (loop_body mx0 my0 (mk_loop f0 f0 0))) as (k & _ & Hw & _).
  { rewrite Hi. simpl. lia. }
  rewrite Hw, i_iter, Hi. lia.
Qed.

Lemma not_blue_check :
  forallb (fun k => (k =? 0)
                    || negb (same_color (count_color k)
                                        (Some (mk_rgba8 0 0 255 255))))
          counts = true.
Proof. vm_compute. reflexivity. Qed.

(** X3: The iteration count of a pixel is never 0: the first test of the loop
    always succeeds (it compares [0 < 4] and [0 < 100]).  So the colour
    the kernel computes for a pixel is one of the 100 colours of the
    counts 1 to 100, never the colour of count 0, pure blue
    [(0,0,255,255)].  Hence a successful [render] of an image of at most
    [2^24] pixels a side, with device pitch and host stride of at least
    [4 * width] bytes, leaves no pure blue pixel in the host image.
    (A pixel that no thread writes holds what the allocation held.) *)
Theorem pixel_never_pure_blue (width height x y : Z) :
  let k := i (escape_loop 100 (map_x x width) (map_y y height)) in
  1 <= k <= 100 /\
  pixel_color width height x y = heat_lut (v_clamp k 100) /\
  heat_lut (v_clamp 0 100) = Some (mk_rgba8 0 0 255 255) /\
  pixel_color width height x y <> Some (mk_rgba8 0 0 255 255) /\
  (forall (rt : cuda_runtime) (hostBuffer : mem) (stride n_iterations : Z),
      0 < width <= 2 ^ 24 -> 0 < height <= 2 ^ 24 ->
      all_succeed rt = true ->
      sizeof_rgba8_t * width <= malloc_pitch rt ->
      sizeof_rgba8_t * width <= stride ->
      0 <= x < width -> 0 <= y < height ->
      exists host',
        render rt hostBuffer width height stride n_iterations
        = Returned [LogDebug (ceil_div width 32) (ceil_div height 32)] host' /\
        read_pixel host' stride x y <> mk_rgba8 0 0 255 255).
Proof.
  cbv zeta.
  assert (Hk : 1 <= i (escape_loop 100 (map_x x width) (map_y y height)) <= 100
               /\ pixel_color width height x y
                  <> Some (mk_rgba8 0 0 255 255)).
  { unfold pixel_color, pixel_scalar.
    pose proof (escape_count_positive (map_x x width) (map_y y height)) as Hpos.
    pose proof (escape_count_range (map_x x width) (map_y y height)) as Hr.
    revert Hpos Hr.
    generalize (i (escape_loop 100 (map_x x width) (map_y y height))).
    intros k Hpos Hr.
    split; [lia|].
    intros Hblue.
    pose proof (for_all_counts _ not_blue_check k Hr) as H.
    cbv beta in H. unfold count_color in H.
    apply orb_true_iff in H. destruct H as [H|H]; [apply Z.eqb_eq in H; lia|].
    rewrite (same_color_eq _ _ Hblue) in H. discriminate. }
  destruct Hk as [Hrange Hnot].
  split; [exact Hrange|]. split; [reflexivity|].
  split; [vm_compute; reflexivity|].
  split; [exact Hnot|].
  intros rt hostBuffer stride n_iterations Hw Hh Hok Hpitch Hstride Hx Hy.
  destruct (render_small_image rt hostBuffer width height stride n_iterations
              Hw Hh Hok Hpitch Hstride) as (host' & Hr & Hpix).
  exists host'. split; [exact Hr|].
  intros Hblue. apply Hnot. rewrite (Hpix x y Hx Hy), Hblue. reflexivity.
Qed.

Lemma pixel_never_pure_blue_witness :
  exists host',
    render (mk_runtime 0 512 (fun _ => 7) 0 0 0 0) (fun _ => 9) 2 2 8 100
    = Returned [LogDebug 1 1] host' /\
    read_pixel host' 8 1 1 <> mk_rgba8 0 0 255 255.
Proof.
  destruct (pixel_never_pure_blue 2 2 1 1) as (_ & _ & _ & _ & Himg).
  destruct (Himg (mk_runtime 0 512 (fun _ => 7) 0 0 0 0) (fun _ => 9) 8 100
              ltac:(lia) ltac:(lia) eq_refl
              ltac:(vm_compute; congruence) ltac:(vm_compute; congruence)
              ltac:(lia) ltac:(lia)) as (host' & Hr & Hne).
  exists host'. split; [exact Hr | exact Hne].
Defined.

(** ** The device buffer after the kernel *)

Lemma to_uint8_range (f : float) (z : Z) :
  to_uint8 f = Some z -> 0 <= z <= 255.
Proof.
  unfold to_uint8. destruct (F32.truncate f) as [v|]; [|discriminate].
  destruct ((0 <=? v) && (v <=? 255)) eqn:Hr; [|discriminate].
  intros H. injection H as <-.
  apply andb_true_iff in Hr. destruct Hr as [Hlo Hhi].
  apply Z.leb_le in Hlo, Hhi. lia.
Qed.

Lemma heat_lut_bytes (x : float) (c : rgba8_t) :
  heat_lut x = Some c ->
  0 <= r c <= 255 /\ 0 <= g c <= 255 /\ 0 <= b c <= 255 /\ a c = 255.
Proof.
  unfold heat_lut, heat_lut_body.
  destruct (heat_lut_pre x); [|discriminate].
  repeat match goal with
         | |- context [if ?t then _ else _] => destruct t
         end;
    match goal with
    | |- context [to_uint8 ?f] =>
        pose proof (to_uint8_range f) as Hz; destruct (to_uint8 f) as [z|];
        [specialize (Hz z eq_refl)|discriminate]
    end;
    intros H; injection H as <-; cbn [r g b a]; lia.
Qed.

(** X4: In a launch with at most [2^31] threads along each axis (so that
    the [int] coordinates of the threads do not wrap) on a buffer whose
    rows are at least [4 * width] bytes apart, every store of a thread
    lies inside the pitched allocation of [height] rows, at the slot of a
    pixel of the image, and writes four byte values with alpha 255: run
    on any buffer, the thread leaves its colour in these four bytes and
    changes no other byte. *)
Theorem kernel_store_in_bounds (width height pitch : Z) (grid blockDim : dim3)
        (t : thread_id) (off : Z) (c : rgba8_t) (m : mem) :
  sizeof_rgba8_t * width <= pitch ->
  dim_x blockDim * dim_x grid <= 2147483648 ->
  dim_y blockDim * dim_y grid <= 2147483648 ->
  In t (grid_threads grid blockDim) ->
  mykernel width height pitch blockDim t = Store off c ->
  0 <= off /\ off + sizeof_rgba8_t <= pitch * height /\
  (exists x y, 0 <= x < width /\ 0 <= y < height /\
               off = y * pitch + sizeof_rgba8_t * x /\
               pixel_color width height x y = Some c) /\
  (0 <= r c <= 255 /\ 0 <= g c <= 255 /\ 0 <= b c <= 255 /\ a c = 255) /\
  (exists m',
      run_threads (mykernel width height pitch blockDim) [t] m = Some m' /\
      read_uchar4 m' off = c /\
      (forall addr, addr < off \/ off + sizeof_rgba8_t <= addr ->
                    m' addr = m addr) /\
      (forall addr, addr < 0 \/ pitch * height <= addr -> m' addr = m addr)).
Proof.
  intros Hpitch Hgx Hgy Hin Hs.
  pose proof Hs as Hk.
  apply mykernel_store_inv in Hs. destruct Hs as (Hx & Hy & Hoff & Hc).
  destruct (thread_xy_in_launch grid blockDim t Hgx Hgy Hin) as (_ & _ & Hx0 & Hy0).
  pose proof (heat_lut_bytes _ _ Hc) as Hbytes.
  assert (Hb : 0 <= off /\ off + 4 <= pitch * height).
  { revert Hx Hy Hoff Hx0 Hy0.
    generalize (thread_x blockDim t) (thread_y blockDim t).
    intros x y Hx Hy Hoff Hx0 Hy0.
    unfold sizeof_rgba8_t in *. subst off. split; nia. }
  unfold sizeof_rgba8_t in *.
  split; [lia|]. split; [lia|].
  split.
  { exists (thread_x blockDim t), (thread_y blockDim t).
    split; [lia|]. split; [lia|]. split; [exact Hoff | exact Hc]. }
  split; [exact Hbytes|].
  exists (store_uchar4 m off c).
  split; [cbn [run_threads]; rewrite Hk; reflexivity|].
  split; [apply read_store_uchar4|].
  split; intros addr Haddr; apply store_uchar4_other; lia.
Qed.

Lemma kernel_store_in_bounds_witness :
  (0 <= 516 /\ 516 + sizeof_rgba8_t <= 512 * 2) /\
  exists m',
    run_threads (mykernel 2 2 512 (mk_dim3 32 32))
                [mk_thread (mk_dim3 0 0) (mk_dim3 1 1)] (fun _ => 7) = Some m' /\
    read_uchar4 m' 516 = mk_rgba8 0 0 0 255 /\ m' 1024 = 7.
Proof.
  destruct (kernel_store_in_bounds 2 2 512 (mk_dim3 1 1) (mk_dim3 32 32)
              (mk_thread (mk_dim3 0 0) (mk_dim3 1 1)) 516 (mk_rgba8 0 0 0 255)
              (fun _ => 7)
              ltac:(vm_compute; congruence) ltac:(vm_compute; congruence)
              ltac:(vm_compute; congruence)
              ltac:(apply in_grid_threads; simpl; lia)
              ltac:(vm_compute; reflexivity))
    as (Hlo & Hhi & _ & _ & (m' & Hrun & Hread & _ & Hout)).
  split; [split; assumption|].
  exists m'. split; [exact Hrun|]. split; [exact Hread|].
  apply Hout. right. vm_compute. congruence.
Defined.

(** X5: For every launch shape that covers the image (not only the [32 x 32]
    blocks of [render]), with positive block dimensions and at most
    [2^31] threads along each axis, on a buffer whose rows are at least
    [4 * width] bytes apart, the kernel completes; afterwards each pixel
    slot of the buffer holds the colour of its pixel, whatever the buffer
    held before, and every byte outside the pixel slots of the image, the
    row padding included, is as it was. *)
Theorem kernel_fills_image (width height pitch : Z) (grid blockDim : dim3)
        (m : mem) :
  sizeof_rgba8_t * width <= pitch ->
  0 < dim_x blockDim -> 0 < dim_y blockDim ->
  dim_x blockDim * dim_x grid <= 2147483648 ->
  dim_y blockDim * dim_y grid <= 2147483648 ->
  width <= dim_x blockDim * dim_x grid ->
  height <= dim_y blockDim * dim_y grid ->
  exists m',
    launch grid blockDim (mykernel width height pitch blockDim) m = Some m' /\
    (forall x y, 0 <= x < width -> 0 <= y < height ->
                 pixel_color width height x y = Some (read_pixel m' pitch x y)) /\
    (forall addr,
        (forall x y, 0 <= x < width -> 0 <= y < height ->
                     addr < y * pitch + sizeof_rgba8_t * x
                     \/ y * pitch + sizeof_rgba8_t * x + sizeof_rgba8_t <= addr) ->
        m' addr = m addr).
Proof.
  intros Hpitch Hbx Hby Hgx Hgy Hcx Hcy. unfold launch.
  destruct (run_threads_defined width height pitch blockDim
              (grid_threads grid blockDim) m) as [m' Hrun].
  exists m'. split; [exact Hrun|]. split.
  - intros x y Hx Hy.
    apply (run_threads_pixel width height pitch grid blockDim m m' x y);
      try assumption; lia.
  - intros addr Hout.
    apply (run_threads_untouched (mykernel width height pitch blockDim)
                                 (grid_threads grid blockDim)); [|exact Hrun].
    intros t off c Hin Hs.
    apply mykernel_store_inv in Hs. destruct Hs as (Hx & Hy & -> & _).
    destruct (thread_xy_in_launch grid blockDim t Hgx Hgy Hin)
      as (_ & _ & Hx0 & Hy0).
    specialize (Hout (thread_x blockDim t) (thread_y blockDim t)
                     ltac:(lia) ltac:(lia)).
    unfold sizeof_rgba8_t in *. lia.
Qed.

Lemma kernel_fills_image_witness :
  exists m',
    launch (mk_dim3 1 1) (mk_dim3 2 2) (mykernel 2 2 8 (mk_dim3 2 2)) (fun _ => 7)
    = Some m' /\
    pixel_color 2 2 1 1 = Some (read_pixel m' 8 1 1) /\
    m' 16 = 7.
Proof.
  destruct (kernel_fills_image 2 2 8 (mk_dim3 1 1) (mk_dim3 2 2) (fun _ => 7))
    as (m' & Hrun & Hpix & Hframe);
    try (vm_compute; congruence).
  exists m'. split; [exact Hrun|]. split.
  - apply Hpix; lia.
  - apply Hframe. intros x y Hx Hy. unfold sizeof_rgba8_t. lia.
Defined.

(** X6: In a launch with at most [2^31] threads along each axis, on a
    buffer whose rows are at least [4 * width] bytes apart, the result of
    the kernel does not depend on the order in which the threads of the
    launch run (nor on how often one runs): any two runs over the threads
    of the launch, from the same buffer, end with the same buffer. *)
Theorem kernel_order_irrelevant (width height pitch : Z) (grid blockDim : dim3)
        (ts1 ts2 : list thread_id) (m m1 m2 : mem) :
  sizeof_rgba8_t * width <= pitch ->
  dim_x blockDim * dim_x grid <= 2147483648 ->
  dim_y blockDim * dim_y grid <= 2147483648 ->
  (forall t, In t (grid_threads grid blockDim) <-> In t ts1) ->
  (forall t, In t (grid_threads grid blockDim) <-> In t ts2) ->
  run_threads (mykernel width height pitch blockDim) ts1 m = Some m1 ->
  run_threads (mykernel width height pitch blockDim) ts2 m = Some m2 ->
  forall addr, m1 addr = m2 addr.
Proof.
  intros Hpitch Hgx Hgy Hs1 Hs2 Hr1 Hr2 addr.
  destruct (run_threads_defined width height pitch blockDim
              (grid_threads grid blockDim) m) as [m0 Hr0].
  rewrite <- (launch_any_order width height pitch grid blockDim ts1 m m0 m1
                Hpitch Hgx Hgy Hs1 Hr0 Hr1 addr).
  apply (launch_any_order width height pitch grid blockDim ts2 m m0 m2
           Hpitch Hgx Hgy Hs2 Hr0 Hr2 addr).
Qed.

Lemma kernel_order_irrelevant_witness :
  exists m1 m2,
    run_threads (mykernel 2 2 8 (mk_dim3 2 2))
                (grid_threads (mk_dim3 1 1) (mk_dim3 2 2)) (fun _ => 7) = Some m1 /\
    run_threads (mykernel 2 2 8 (mk_dim3 2 2))
                (rev (grid_threads (mk_dim3 1 1) (mk_dim3 2 2))) (fun _ => 7)
    = Some m2 /\
    m1 5 = m2 5.
Proof.
  destruct (run_threads_defined 2 2 8 (mk_dim3 2 2)
              (grid_threads (mk_dim3 1 1) (mk_dim3 2 2)) (fun _ => 7)) as [m1 H1].
  destruct (run_threads_defined 2 2 8 (mk_dim3 2 2)
              (rev (grid_threads (mk_dim3 1 1) (mk_dim3 2 2))) (fun _ => 7))
    as [m2 H2].
  exists m1, m2. split; [exact H1|]. split; [exact H2|].
  apply (kernel_order_irrelevant 2 2 8 (mk_dim3 1 1) (mk_dim3 2 2)
           (grid_threads (mk_dim3 1 1) (mk_dim3 2 2))
           (rev (grid_threads (mk_dim3 1 1) (mk_dim3 2 2))) (fun _ => 7) m1 m2);
    try (vm_compute; congruence); try assumption.
  - intros t. reflexivity.
  - intros t. apply in_rev.
Defined.

(** ** [render]: outcomes and the host buffer *)

Lemma copy_rows_frame (dpitch spitch wbytes : Z) (src : mem) (addr : Z)
      (rows : list Z) :
  (forall r', In r' rows -> addr < r' * dpitch \/ r' * dpitch + wbytes <= addr) ->
  forall dst,
    fold_left (fun m r' => copy_row m (r' * dpitch) src (r' * spitch) wbytes)
              rows dst addr
    = dst addr.
Proof.
  induction rows as [|r' rows IH]; intros Hout dst; cbn [fold_left].
  - reflexivity.
  - rewrite IH by (intros q Hq; apply Hout; right; exact Hq).
    unfold copy_row.
    replace ((r' * dpitch <=? addr) && (addr <? r' * dpitch + wbytes)) with false;
      [reflexivity|].
    symmetry. apply andb_false_iff.
    destruct (Hout r' (or_introl eq_refl)) as [H|H];
      [left; apply Z.leb_gt; exact H | right; apply Z.ltb_ge; exact H].
Qed.

(** X7: [render] stops at the first runtime call that fails, in the order
    allocation, launch, copy, free: it logs that call's message with the
    function name and line and the CUDA error, and exits with status 1;
    the debug line with the grid size precedes every message but the
    allocation's.  When no call fails it returns.  There is no other
    outcome for an image of at most [2^24] pixels a side. *)
Theorem render_first_failure (rt : cuda_runtime) (hostBuffer : mem)
        (width height stride n_iterations : Z) :
  0 < width <= 2 ^ 24 -> 0 < height <= 2 ^ 24 ->
  exists host',
    render rt hostBuffer width height stride n_iterations
    = if negb (malloc_rc rt =? 0) then
        Exited [LogAbort "Fail buffer allocation" "render" 99;
                LogCuda (last_error rt)] 1
      else if negb (peek_rc rt =? 0) then
        Exited [LogDebug (ceil_div width 32) (ceil_div height 32);
                LogAbort "Computation Error" "render" 114;
                LogCuda (last_error rt)] 1
      else if negb (memcpy_rc rt =? 0) then
        Exited [LogDebug (ceil_div width 32) (ceil_div height 32);
                LogAbort "Unable to copy buffer back to memory" "render" 120;
                LogCuda (last_error rt)] 1
      else if negb (free_rc rt =? 0) then
        Exited [LogDebug (ceil_div width 32) (ceil_div height 32);
                LogAbort "Unable to free memory" "render" 125;
                LogCuda (last_error rt)] 1
      else Returned [LogDebug (ceil_div width 32) (ceil_div height 32)] host'.
Proof.
  intros Hw Hh.
  destruct (launch_geometry_small width height Hw Hh) as (Hgeom & _).
  destruct (render_outcomes rt hostBuffer width height stride n_iterations
              _ _ Hgeom) as (dev' & _ & Hr).
  cbn [dim_x dim_y] in Hr.
  eexists. exact Hr.
Qed.

Lemma render_first_failure_witness :
  render (mk_runtime 0 512 (fun _ => 7) 0 3 5 77) (fun _ => 9) 2 2 8 100
  = Exited [LogDebug 1 1;
            LogAbort "Unable to copy buffer back to memory" "render" 120;
            LogCuda 77] 1.
Proof.
  destruct (render_first_failure (mk_runtime 0 512 (fun _ => 7) 0 3 5 77)
              (fun _ => 9) 2 2 8 100) as (host' & Hr); [lia | lia |].
  exact Hr.
Defined.

(** X8: A successful [render] of an image of at most [2^24] pixels a side
    leaves in the host buffer exactly the image: every pixel holds the
    colour the kernel computes for it, and every byte that is not among
    the first [4 * width] bytes of one of the [height] rows (the row
    padding, the bytes after the last row) keeps its previous value. *)
Theorem render_writes_image_only (rt : cuda_runtime) (hostBuffer : mem)
        (width height stride n_iterations : Z) :
  0 < width <= 2 ^ 24 -> 0 < height <= 2 ^ 24 ->
  all_succeed rt = true ->
  sizeof_rgba8_t * width <= malloc_pitch rt ->
  sizeof_rgba8_t * width <= stride ->
  exists host',
    render rt hostBuffer width height stride n_iterations
    = Returned [LogDebug (ceil_div width 32) (ceil_div height 32)] host' /\
    (forall x y, 0 <= x < width -> 0 <= y < height ->
                 pixel_color width height x y = Some (read_pixel host' stride x y)) /\
    (forall addr,
        (forall row, 0 <= row < height ->
                     addr < row * stride
                     \/ row * stride + width * sizeof_rgba8_t <= addr) ->
        host' addr = hostBuffer addr).
Proof.
  intros Hw Hh Hok Hpitch Hstride.
  unfold all_succeed in Hok. rewrite !andb_true_iff in Hok.
  destruct Hok as [[[Hm Hp] Hc] Hf].
  destruct (launch_geometry_small width height Hw Hh) as (Hgeom & Hcw & Hch).
  destruct (render_outcomes rt hostBuffer width height stride n_iterations
              _ _ Hgeom) as (dev' & Hdev & Hr).
  rewrite Hm, Hp, Hc, Hf in Hr. cbn [negb dim_x dim_y] in Hr.
  eexists. split; [exact Hr|]. split.
  - intros x y Hx Hy.
    rewrite read_pixel_memcpy by assumption.
    apply (run_threads_pixel width height (malloc_pitch rt)
             (mk_dim3 (ceil_div width 32) (ceil_div height 32)) (mk_dim3 32 32)
             (malloc_contents rt) dev' x y);
      cbn [dim_x dim_y]; try assumption; try lia.
  - intros addr Hout. unfold cudaMemcpy2D.
    apply copy_rows_frame.
    intros row Hrow. apply in_zrange in Hrow. apply Hout. exact Hrow.
Qed.

Lemma render_writes_image_only_witness :
  exists host',
    render (mk_runtime 0 512 (fun _ => 7) 0 0 0 0) (fun _ => 9) 2 2 12 100
    = Returned [LogDebug 1 1] host' /\
    read_pixel host' 12 1 1 = mk_rgba8 0 0 0 255 /\
    host' 8 = 9 /\ host' 24 = 9.
Proof.
  destruct (render_writes_image_only (mk_runtime 0 512 (fun _ => 7) 0 0 0 0)
              (fun _ => 9) 2 2 12 100
              ltac:(lia) ltac:(lia) eq_refl
              ltac:(vm_compute; congruence) ltac:(vm_compute; congruence))
    as (host' & Hr & Hpix & Hframe).
  exists host'. split; [exact Hr|]. split; [|split].
  - specialize (Hpix 1 1 ltac:(lia) ltac:(lia)).
    assert (Hc : pixel_color 2 2 1 1 = Some (mk_rgba8 0 0 0 255))
      by (vm_compute; reflexivity).
    rewrite Hc in Hpix. congruence.
  - apply Hframe. intros row Hrow. unfold sizeof_rgba8_t. lia.
  - apply Hframe. intros row Hrow. unfold sizeof_rgba8_t. lia.
Defined.

(** X9: The image does not depend on the run: two successful renders of the
    same size, of at most [2^24] pixels a side, each with a device pitch
    and a host stride of at least [4 * width] bytes, agree on every
    pixel, whatever the pitch, the contents of the fresh device
    allocation, the stride, the previous host contents and
    [n_iterations] were in each. *)
Theorem render_reproducible (rt1 rt2 : cuda_runtime) (host1 host2 : mem)
        (width height stride1 stride2 n1 n2 : Z) :
  0 < width <= 2 ^ 24 -> 0 < height <= 2 ^ 24 ->
  all_succeed rt1 = true -> all_succeed rt2 = true ->
  sizeof_rgba8_t * width <= malloc_pitch rt1 ->
  sizeof_rgba8_t * width <= malloc_pitch rt2 ->
  sizeof_rgba8_t * width <= stride1 ->
  sizeof_rgba8_t * width <= stride2 ->
  exists log host1' host2',
    render rt1 host1 width height stride1 n1 = Returned log host1' /\
    render rt2 host2 width height stride2 n2 = Returned log host2' /\
    forall x y, 0 <= x < width -> 0 <= y < height ->
                read_pixel host1' stride1 x y = read_pixel host2' stride2 x y.
Proof.
  intros Hw Hh Hok1 Hok2 Hp1 Hp2 Hs1 Hs2.
  destruct (render_small_image rt1 host1 width height stride1 n1
              Hw Hh Hok1 Hp1 Hs1) as (h1 & Hr1 & Hpix1).
  destruct (render_small_image rt2 host2 width height stride2 n2
              Hw Hh Hok2 Hp2 Hs2) as (h2 & Hr2 & Hpix2).
  exists [LogDebug (ceil_div width 32) (ceil_div height 32)], h1, h2.
  split; [exact Hr1|]. split; [exact Hr2|].
  intros x y Hx Hy.
  specialize (Hpix1 x y Hx Hy). specialize (Hpix2 x y Hx Hy).
  rewrite Hpix1 in Hpix2. congruence.
Qed.

Lemma render_reproducible_witness :
  exists log host1' host2',
    render (mk_runtime 0 512 (fun _ => 7) 0 0 0 0) (fun _ => 9) 2 2 8 100
    = Returned log host1' /\
    render (mk_runtime 0 256 (fun _ => 1) 0 0 0 3) (fun _ => 4) 2 2 16 5
    = Returned log host2' /\
    read_pixel host1' 8 1 0 = read_pixel host2' 16 1 0.
Proof.
  destruct (render_reproducible (mk_runtime 0 512 (fun _ => 7) 0 0 0 0)
              (mk_runtime 0 256 (fun _ => 1) 0 0 0 3) (fun _ => 9) (fun _ => 4)
              2 2 8 16 100 5
              ltac:(lia) ltac:(lia) eq_refl eq_refl
              ltac:(vm_compute; congruence) ltac:(vm_compute; congruence)
              ltac:(vm_compute; congruence) ltac:(vm_compute; congruence))
    as (log & h1 & h2 & Hr1 & Hr2 & Hpix).
  exists log, h1, h2. split; [exact Hr1|]. split; [exact Hr2|].
  apply Hpix; lia.
Defined.

(** ** Threads and pixels *)

(** X10: In the launch that [render] sets up for an image of at most [2^24]
    pixels a side, every pixel of the image is the pixel of exactly one
    thread, and fewer than 32 columns and 32 rows of threads fall outside
    the image. *)
Theorem render_one_thread_per_pixel (width height x y : Z) :
  0 < width <= 2 ^ 24 -> 0 < height <= 2 ^ 24 ->
  0 <= x < width -> 0 <= y < height ->
  exists dimBlock dimGrid t,
    launch_geometry width height = Some (dimBlock, dimGrid) /\
    In t (grid_threads dimGrid dimBlock) /\
    thread_x dimBlock t = x /\ thread_y dimBlock t = y /\
    (forall t', In t' (grid_threads dimGrid dimBlock) ->
                thread_x dimBlock t' = x -> thread_y dimBlock t' = y -> t' = t) /\
    width <= dim_x dimBlock * dim_x dimGrid < width + 32 /\
    height <= dim_y dimBlock * dim_y dimGrid < height + 32.
Proof.
  intros Hw Hh Hx Hy.
  destruct (launch_geometry_small width height Hw Hh) as (Hgeom & Hcw & Hch).
  set (g := mk_dim3 (ceil_div width 32) (ceil_div height 32)) in *.
  set (bd := mk_dim3 32 32) in *.
  set (t := mk_thread (mk_dim3 (x / 32) (y / 32)) (mk_dim3 (x mod 32) (y mod 32))).
  assert (Hgx : dim_x bd * dim_x g <= 2147483648) by (cbn [dim_x bd g]; lia).
  assert (Hgy : dim_y bd * dim_y g <= 2147483648) by (cbn [dim_y bd g]; lia).
  assert (Hin : In t (grid_threads g bd)).
  { apply in_grid_threads. cbn [t g bd dim_x dim_y blockIdx threadIdx].
    pose proof (Z.mod_pos_bound x 32 ltac:(lia)).
    pose proof (Z.mod_pos_bound y 32 ltac:(lia)).
    pose proof (Z.div_pos x 32 ltac:(lia) ltac:(lia)).
    pose proof (Z.div_pos y 32 ltac:(lia) ltac:(lia)).
    assert (x / 32 < ceil_div width 32) by (apply Z.div_lt_upper_bound; lia).
    assert (y / 32 < ceil_div height 32) by (apply Z.div_lt_upper_bound; lia).
    lia. }
  destruct (thread_xy_in_launch g bd t Hgx Hgy Hin) as (Ex & Ey & _ & _).
  assert (Etx : thread_x bd t = x).
  { rewrite Ex. cbn [t bd dim_x blockIdx threadIdx]. symmetry.
    apply Z.div_mod. lia. }
  assert (Ety : thread_y bd t = y).
  { rewrite Ey. cbn [t bd dim_y blockIdx threadIdx]. symmetry.
    apply Z.div_mod. lia. }
  exists bd, g, t.
  split; [exact Hgeom|]. split; [exact Hin|].
  split; [exact Etx|]. split; [exact Ety|].
  split.
  - intros t' Hin' Ex' Ey'.
    apply (thread_xy_injective g bd t' t Hgx Hgy Hin' Hin); congruence.
  - cbn [bd g dim_x dim_y]. lia.
Qed.

Lemma render_one_thread_per_pixel_witness :
  exists dimBlock dimGrid t,
    launch_geometry 40 3 = Some (dimBlock, dimGrid) /\
    In t (grid_threads dimGrid dimBlock) /\
    thread_x dimBlock t = 33 /\ thread_y dimBlock t = 2.
Proof.
  destruct (render_one_thread_per_pixel 40 3 33 2
              ltac:(lia) ltac:(lia) ltac:(lia) ltac:(lia))
    as (bd & g & t & Hgeom & Hin & Hx & Hy & _).
  exists bd, g, t. auto.
Defined.

(** ** [clamp] outside its contract *)

Lemma sub_nan_l (y : float) : F32.sub S754_nan y = S754_nan.
Proof. reflexivity. Qed.

Lemma sub_nan_r (x : float) : F32.sub x S754_nan = S754_nan.
Proof. destruct x; reflexivity. Qed.

Lemma div_nan_r (x : float) : F32.div x S754_nan = S754_nan.
Proof. destruct x; reflexivity. Qed.

Lemma mul_nan_r (x : float) : F32.mul x S754_nan = S754_nan.
Proof. destruct x; reflexivity. Qed.

Lemma add_nan_r (x : float) : F32.add x S754_nan = S754_nan.
Proof. destruct x; reflexivity. Qed.

(** X11: [clamp] has no guard: with an empty domain ([a1 = a2], finite) the
    division is by zero and the result is never a finite number, and a NaN
    in any argument gives NaN. *)
Theorem clamp_degenerate (a a1 a2 min max : float) :
  (F32.is_finite a1 = true ->
   F32.is_finite (clamp a a1 a1 min max) = false) /\
  (F32.is_nan a || F32.is_nan a1 || F32.is_nan a2
   || F32.is_nan min || F32.is_nan max = true ->
   clamp a a1 a2 min max = S754_nan).
Proof.
  split.
  - intros Ha1. unfold clamp. rewrite (sub_self a1 Ha1).
    generalize (F32.sub a a1) (F32.sub min max). intros p q.
    unfold F32.div, F32.mul, F32.add.
    destruct p as [sp|sp| |sp mp ep]; cbn [SFdiv];
      destruct q as [sq|sq| |sq mq eq]; cbn [SFmul];
      destruct min as [sm|sm| |sm mm em]; cbn [SFadd F32.is_finite];
      try reflexivity;
      destruct (xorb _ _); destruct sm; reflexivity.
  - intros Hnan. unfold clamp.
    rewrite !orb_true_iff in Hnan.
    destruct Hnan as [[[[H|H]|H]|H]|H].
    + destruct a; try discriminate. rewrite sub_nan_l. reflexivity.
    + destruct a1; try discriminate. rewrite sub_nan_r. reflexivity.
    + destruct a2; try discriminate. rewrite sub_nan_r, div_nan_r. reflexivity.
    + destruct min; try discriminate. apply add_nan_r.
    + destruct max; try discriminate.
      rewrite sub_nan_r, mul_nan_r. reflexivity.
Qed.

Lemma clamp_degenerate_witness :
  F32.is_finite (clamp (F32.of_int 3) (F32.of_int 5) (F32.of_int 5) f0 f1) = false /\
  clamp (F32.of_int 3) f0 S754_nan f0 f1 = S754_nan.
Proof.
  destruct (clamp_degenerate (F32.of_int 3) (F32.of_int 5) (F32.of_int 5) f0 f1)
    as [Hfin _].
  destruct (clamp_degenerate (F32.of_int 3) f0 S754_nan f0 f1) as [_ Hnan].
  split; [apply Hfin; reflexivity | apply Hnan; reflexivity].
Defined.

(** ** Fixed points of the pixel mapping *)






(** Doubling an integer below [2^23] raises the exponent of its [float]
    by one and keeps the mantissa. *)
Lemma of_int_double (n : Z) :
  0 < n -> 2 * n < 2 ^ 24 ->
  exists m e, F32.of_int n = S754_finite false m e /\
              F32.of_int (2 * n) = S754_finite false m (e + 1).
Proof.
  intros Hn Hn2.
  destruct n as [|p|p]; try lia.
  destruct (of_int_small p) as (m & e & Hf & Hd & He & Hm); [lia|].
  change (2 * Z.pos p) with (Z.pos p~0).
  destruct (of_int_small p~0) as (m' & e' & Hf' & Hd' & He' & Hm'); [lia|].
  exists m, e. split; [exact Hf|]. rewrite Hf'.
  pose proof (digits2_pos_bound m) as Hub. rewrite Hd in Hub.
  pose proof (digits2_pos_lower m) as Hlb. rewrite Hd in Hlb.
  pose proof (digits2_pos_bound m') as Hub'. rewrite Hd' in Hub'.
  pose proof (digits2_pos_lower m') as Hlb'. rewrite Hd' in Hlb'.
  change (2 ^ (24 - 1)) with 8388608 in *. change (2 ^ 24) with 16777216 in *.
  rewrite Pos2Z.inj_xO in Hm'.
  assert (Hpa : 0 < 2 ^ (- e)) by (apply Z.pow_pos_nonneg; lia).
  assert (Hpb : 0 < 2 ^ (- e')) by (apply Z.pow_pos_nonneg; lia).
  assert (Hee : e' = e + 1).
  { destruct (Z.lt_trichotomy e' (e + 1)) as [Hlt|[Heq|Hgt]]; [|exact Heq|].
    - exfalso.
      assert (Hpow : 2 ^ (- e') = 2 ^ (- e) * 2 ^ (e - e')).
      { rewrite <- Z.pow_add_r by lia. f_equal. lia. }
      assert (0 < 2 ^ (e - e')) by (apply Z.pow_pos_nonneg; lia).
      nia.
    - exfalso.
      assert (Hpow : 2 ^ (- e) = 2 ^ (- e') * 2 ^ (e' - e)).
      { rewrite <- Z.pow_add_r by lia. f_equal. lia. }
      assert (Hge : 2 ^ 2 <= 2 ^ (e' - e)) by (apply Z.pow_le_mono_r; lia).
      change (2 ^ 2) with 4 in Hge. nia. }
  subst e'.
  assert (Hpow : 2 ^ (- e) = 2 * 2 ^ (- (e + 1))).
  { rewrite <- Z.pow_succ_r by lia. f_equal. lia. }
  assert (Z.pos m' = Z.pos m) by nia.
  congruence.
Qed.

(** The quotient of two finite numbers does not change when both
    exponents are raised by one. *)
Lemma div_same_shift (s1 s2 : bool) (m1 m2 : positive) (e1 e2 : Z) :
  F32.div (S754_finite s1 m1 (e1 + 1)) (S754_finite s2 m2 (e2 + 1))
  = F32.div (S754_finite s1 m1 e1) (S754_finite s2 m2 e2).
Proof.
  unfold F32.div, SFdiv, SFdiv_core_binary.
  replace (Zdigits2 (Z.pos m1) + (e1 + 1) - (Zdigits2 (Z.pos m2) + (e2 + 1)))
    with (Zdigits2 (Z.pos m1) + e1 - (Zdigits2 (Z.pos m2) + e2)) by lia.
  replace (e1 + 1 - (e2 + 1)) with (e1 - e2) by lia.
  reflexivity.
Qed.

(** Mapping coordinate [2 * k] of an axis of [2 * n] points is mapping
    coordinate [k] of an axis of [n] points. *)
Lemma clamp_double (k n : Z) (lo hi : float) :
  0 <= k -> 2 * k < 2 ^ 24 -> 0 < n -> 2 * n < 2 ^ 24 ->
  clamp (F32.of_int (2 * k)) (F32.of_int 0) (F32.of_int (2 * n)) lo hi
  = clamp (F32.of_int k) (F32.of_int 0) (F32.of_int n) lo hi.
Proof.
  intros Hk Hk2 Hn Hn2.
  destruct (of_int_double n Hn Hn2) as (mn & en & Hfn & Hfn2).
  unfold clamp. rewrite Hfn, Hfn2.
  destruct (Z.eq_dec k 0) as [->|Hk0]; [reflexivity|].
  destruct (of_int_double k ltac:(lia) Hk2) as (mk & ek & Hfk & Hfk2).
  rewrite Hfk, Hfk2.
  change (F32.sub (S754_finite false mk (ek + 1)) (F32.of_int 0))
    with (S754_finite false mk (ek + 1)).
  change (F32.sub (S754_finite false mk ek) (F32.of_int 0))
    with (S754_finite false mk ek).
  change (F32.sub (F32.of_int 0) (S754_finite false mn (en + 1)))
    with (S754_finite true mn (en + 1)).
  change (F32.sub (F32.of_int 0) (S754_finite false mn en))
    with (S754_finite true mn en).
  rewrite div_same_shift. reflexivity.
Qed.

(** X13: Doubling the resolution refines the image: pixel [(2x, 2y)] of the
    [2 width x 2 height] image has the colour of pixel [(x, y)] of the
    [width x height] image. *)
Theorem double_resolution_keeps_samples (width height x y : Z) :
  0 < width -> 2 * width < 2 ^ 24 -> 0 < height -> 2 * height < 2 ^ 24 ->
  0 <= x < width -> 0 <= y < height ->
  map_x (2 * x) (2 * width) = map_x x width /\
  map_y (2 * y) (2 * height) = map_y y height /\
  pixel_color (2 * width) (2 * height) (2 * x) (2 * y)
  = pixel_color width height x y.
Proof.
  intros Hw Hw2 Hh Hh2 Hx Hy.
  assert (Hmx : map_x (2 * x) (2 * width) = map_x x width)
    by (unfold map_x; apply clamp_double; lia).
  assert (Hmy : map_y (2 * y) (2 * height) = map_y y height)
    by (unfold map_y; apply clamp_double; lia).
  split; [exact Hmx|]. split; [exact Hmy|].
  unfold pixel_color, pixel_scalar. rewrite Hmx, Hmy. reflexivity.
Qed.

Lemma double_resolution_keeps_samples_witness :
  pixel_color 640 480 200 100 = pixel_color 320 240 100 50.
Proof.
  destruct (double_resolution_keeps_samples 320 240 100 50
              ltac:(lia) ltac:(lia) ltac:(lia) ltac:(lia) ltac:(lia) ltac:(lia))
    as (_ & _ & Hc).
  exact Hc.
Defined.

(** A finite number divided by the opposite of its double is [-0.5]. *)
Lemma div_minus_double (m : positive) (e : Z) :
  F32.div (S754_finite false m e) (S754_finite true m (e + 1))
  = S754_finite true 8388608 (-24).
Proof.
  unfold F32.div, SFdiv, SFdiv_core_binary.
  replace (Zdigits2 (Z.pos m) + e - (Zdigits2 (Z.pos m) + (e + 1))) with (-1) by lia.
  replace (e - (e + 1)) with (-1) by lia.
  change (Z.min (fexp F32.prec F32.emax (-1)) (-1)) with (-25).
  change (-1 - -25) with 24.
  cbv iota beta.
  rewrite div_eucl_div_mod, Z.shiftl_mul_pow2 by lia.
  rewrite (Z.mul_comm (Z.pos m)), Z.div_mul, Z_mod_mult by lia.
  cbn [xorb].
  unfold new_location. destruct (Z.even (Z.pos m)); reflexivity.
Qed.

Lemma centre_color :
  let half := S754_finite true 8388608 (-24) in
  let re := F32.add (F32.mul half (F32.sub (F32.dyadic (-5) (-1)) (F32.of_int 1)))
                    (F32.dyadic (-5) (-1)) in
  let im := F32.add (F32.mul half (F32.sub (F32.of_int (-1)) (F32.of_int 1)))
                    (F32.of_int (-1)) in
  re = F32.dyadic (-3) (-2) /\ im = f0 /\
  i (escape_loop 100 re im) = 100 /\
  heat_lut (v_clamp (i (escape_loop 100 re im)) 100) = Some (mk_rgba8 0 0 0 255).
Proof. cbv zeta. repeat split; vm_compute; reflexivity. Qed.

(** X14: The centre pixel of an image with an even number of columns and rows
    maps to [-0.75 + 0i], never escapes within the 100 iterations, and is
    black. *)
Theorem centre_pixel_black (w h : Z) :
  0 < w -> 2 * w < 2 ^ 24 -> 0 < h -> 2 * h < 2 ^ 24 ->
  map_x w (2 * w) = F32.dyadic (-3) (-2) /\
  map_y h (2 * h) = f0 /\
  i (escape_loop 100 (map_x w (2 * w)) (map_y h (2 * h))) = 100 /\
  pixel_color (2 * w) (2 * h) w h = Some (mk_rgba8 0 0 0 255).
Proof.
  intros Hw Hw2 Hh Hh2.
  destruct (of_int_double w Hw Hw2) as (mw & ew & Hfw & Hfw2).
  destruct (of_int_double h Hh Hh2) as (mh & eh & Hfh & Hfh2).
  destruct centre_color as (Hre & Him & Hcount & Hcol). cbv zeta in *.
  assert (Hmx : map_x w (2 * w)
                = F32.add (F32.mul (S754_finite true 8388608 (-24))
                                   (F32.sub (F32.dyadic (-5) (-1)) (F32.of_int 1)))
                          (F32.dyadic (-5) (-1))).
  { unfold map_x, clamp. rewrite Hfw, Hfw2.
    change (F32.sub (S754_finite false mw ew) (F32.of_int 0))
      with (S754_finite false mw ew).
    change (F32.sub (F32.of_int 0) (S754_finite false mw (ew + 1)))
      with (S754_finite true mw (ew + 1)).
    rewrite div_minus_double. reflexivity. }
  assert (Hmy : map_y h (2 * h)
                = F32.add (F32.mul (S754_finite true 8388608 (-24))
                                   (F32.sub (F32.of_int (-1)) (F32.of_int 1)))
                          (F32.of_int (-1))).
  { unfold map_y, clamp. rewrite Hfh, Hfh2.
    change (F32.sub (S754_finite false mh eh) (F32.of_int 0))
      with (S754_finite false mh eh).
    change (F32.sub (F32.of_int 0) (S754_finite false mh (eh + 1)))
      with (S754_finite true mh (eh + 1)).
    rewrite div_minus_double. reflexivity. }
  unfold pixel_color, pixel_scalar. rewrite Hmx, Hmy.
  split; [exact Hre|]. split; [exact Him|].
  split; [exact Hcount | exact Hcol].
Qed.

Lemma centre_pixel_black_witness :
  pixel_color 640 480 320 240 = Some (mk_rgba8 0 0 0 255).
Proof.
  destruct (centre_pixel_black 320 240
              ltac:(lia) ltac:(lia) ltac:(lia) ltac:(lia)) as (_ & _ & _ & Hc).
  exact Hc.
Defined.
